(** * vmz: NaN-boxed values, instruction codec and flags register

    A shallow embedding of [src/main.c].  The C program is modelled
    on an LP64 little-endian target with IEEE-754 binary64 [double]:

    - fixed-width integers are [Z] with their wrap-around written out;
    - a [double] is its 64-bit object representation, interpreted
      through [spec_float] whenever the code converts or compares it;
    - undefined behaviour and [assert] failures are explicit outcomes;
    - the static scratch buffer [ret] of the codec is an explicit state. *)

From Stdlib Require Import ZArith List Bool Lia Ascii String.
From Stdlib Require Import Floats.SpecFloat.
Import ListNotations.

Local Open Scope Z_scope.

(** ** Outcomes of a C computation *)

Inductive cause : Type :=
| ConversionRange   (* double to integer conversion of an unrepresentable value *)
| AbsOverflow       (* abs(INT_MIN) *)
| OutOfBounds       (* access outside the object a pointer designates *)
| ObjectOverflow    (* memcpy of more bytes than the destination object holds *)
| DeadObject        (* access through a pointer to an object whose lifetime ended *)
| AssertFailed.     (* assert() aborted the program *)

Inductive exec (A : Type) : Type :=
| Done (a : A)
| Stuck (c : cause).

Arguments Done {A} a.
Arguments Stuck {A} c.

Definition bind {A B : Type} (m : exec A) (k : A -> exec B) : exec B :=
  match m with
  | Done a => k a
  | Stuck c => Stuck c
  end.

Declare Scope exec_scope.
Delimit Scope exec_scope with exec.
Notation "x <- m ;; k" := (bind m (fun x => k))
  (at level 100, m at next level, right associativity) : exec_scope.
Local Open Scope exec_scope.

(** ** Fixed-width integers *)

Definition to_unsigned (w : Z) (x : Z) : Z := x mod 2 ^ w.

Definition to_signed (w : Z) (x : Z) : Z :=
  let m := x mod 2 ^ w in
  if m <? 2 ^ (w - 1) then m else m - 2 ^ w.

Definition to_u8 : Z -> Z := to_unsigned 8.
Definition to_u64 : Z -> Z := to_unsigned 64.
Definition to_int : Z -> Z := to_signed 32.
Definition to_i64 : Z -> Z := to_signed 64.

(** [~x] on a [uint64_t]. *)
Definition not64 (x : Z) : Z := Z.lxor x (2 ^ 64 - 1).

(** [abs] of <stdlib.h>: undefined on [INT_MIN]. *)
Definition c_abs (x : Z) : exec Z :=
  if x =? - 2 ^ 31 then Stuck AbsOverflow else Done (Z.abs x).

(** ** IEEE-754 binary64 *)

Definition double : Type := Z.

Definition prec : Z := 53.
Definition emax : Z := 1024.

Definition sign_bit (s : bool) : Z := if s then 2 ^ 63 else 0.

(** The value a 64-bit pattern denotes. *)
Definition SF_of_bits (d : double) : spec_float :=
  let s := Z.testbit d 63 in
  let e := Z.land (Z.shiftr d 52) 2047 in
  let m := Z.land d (2 ^ 52 - 1) in
  if e =? 0 then
    match m with
    | Zpos p => S754_finite s p (-1074)
    | _ => S754_zero s
    end
  else if e =? 2047 then
    if m =? 0 then S754_infinity s else S754_nan
  else
    match m + 2 ^ 52 with
    | Zpos p => S754_finite s p (e - 1075)
    | _ => S754_nan
    end.

(** The pattern of a (canonical) value; NaN is the default quiet NaN. *)
Definition bits_of_SF (f : spec_float) : double :=
  match f with
  | S754_zero s => sign_bit s
  | S754_infinity s => sign_bit s + 2047 * 2 ^ 52
  | S754_nan => 2047 * 2 ^ 52 + 2 ^ 51
  | S754_finite s m e =>
      if Zpos m <? 2 ^ 52 then sign_bit s + Zpos m
      else sign_bit s + (e + 1075) * 2 ^ 52 + (Zpos m - 2 ^ 52)
  end.

(** [(double) u] for a [uint64_t] u: the nearest double, ties to even. *)
Definition double_of_u64 (u : Z) : double :=
  bits_of_SF (binary_normalize prec emax u 0 false).

(** [(uint64_t) x] for a [double] x: truncation toward zero, undefined
    when the truncated value is not a [uint64_t]. *)
Definition u64_of_double (x : double) : exec Z :=
  match SF_of_bits x with
  | S754_zero _ => Done 0
  | S754_finite s m e =>
      let t := Z.shiftl (Zpos m) e in
      if s then (if t =? 0 then Done 0 else Stuck ConversionRange)
      else if t <? 2 ^ 64 then Done t else Stuck ConversionRange
  | _ => Stuck ConversionRange
  end.

(** [x != y] on doubles. *)
Definition double_ne (x y : double) : bool :=
  negb (SFeqb (SF_of_bits x) (SF_of_bits y)).

(** ** Tagged values (NaNBox) *)

Inductive Type_ : Type := TYPE_I64 | TYPE_U64 | TYPE_F64 | TYPE_STR | TYPE_U8.

Definition Type_to_Z (ty : Type_) : Z :=
  match ty with
  | TYPE_I64 => 0
  | TYPE_U64 => 1
  | TYPE_F64 => 2
  | TYPE_STR => 3
  | TYPE_U8 => 4
  end.

Record NaNBox : Type := mkNaNBox { v : double }.

Definition EXP_MASK : Z := Z.shiftl (Z.shiftl 1 11 - 1) 52.
Definition TYPE_MASK : Z := Z.shiftl (Z.shiftl 1 4 - 1) 48.
Definition VALUE_MASK : Z := Z.shiftl 1 48 - 1.

Definition nan_make_inf : double := double_of_u64 EXP_MASK.

Definition nan_is_nan (nan : NaNBox) : bool := double_ne (v nan) (v nan).

Definition nan_set_type (x : double) (ty : Type_) : exec double :=
  bits <- u64_of_double x ;;
  let tv := to_u64 (Type_to_Z ty) in
  Done (double_of_u64
          (Z.lor (Z.land bits (not64 TYPE_MASK)) (Z.shiftl (Z.land tv 15) 48))).

(** The enumerator number is returned: any 4-bit value can come out. *)
Definition nan_get_type (nan : NaNBox) : exec Z :=
  if nan_is_nan nan then Done (Type_to_Z TYPE_F64)
  else
    bits <- u64_of_double (v nan) ;;
    Done (Z.shiftr (Z.land bits TYPE_MASK) 48).

Definition nan_set_value (x : double) (v : Z) : exec double :=
  let y := if v =? 0 then to_u64 (Z.shiftl 1 63) else 0 in
  bx <- u64_of_double x ;;
  a <- c_abs (to_int v) ;;
  Done (double_of_u64
          (Z.lor (Z.lor (Z.land bx (not64 VALUE_MASK))
                        (Z.land (to_u64 a) VALUE_MASK))
                 y)).

Definition nan_get_value (nan : NaNBox) : exec Z :=
  bits <- u64_of_double (v nan) ;;
  let v := to_i64 (Z.land bits VALUE_MASK) in
  if negb (Z.land bits (to_u64 (Z.shiftl 1 63)) =? 0)
  then Done (to_i64 (- v)) else Done v.

Definition nan_is_f64 (nan : NaNBox) : bool := negb (nan_is_nan nan).

(** [a && b] where [b] is only evaluated when [a] holds. *)
Definition nan_has_type (nan : NaNBox) (ty : Type_) : exec bool :=
  if nan_is_nan nan then
    t <- nan_get_type nan ;; Done (t =? Type_to_Z ty)
  else Done false.

Definition nan_is_i64 (nan : NaNBox) : exec bool := nan_has_type nan TYPE_I64.
Definition nan_is_u64 (nan : NaNBox) : exec bool := nan_has_type nan TYPE_U64.
Definition nan_is_str (nan : NaNBox) : exec bool := nan_has_type nan TYPE_STR.

Definition nan_as_f64 (nan : NaNBox) : double := v nan.

Definition nan_as_i64 (nan : NaNBox) : exec Z := nan_get_value nan.

Definition nan_as_u64 (nan : NaNBox) : exec Z :=
  g <- nan_get_value nan ;; Done (to_u64 g).

(** Declared [bool]: the [uint8_t] is converted to 0 or 1 on return. *)
Definition nan_as_u8 (nan : NaNBox) : exec bool :=
  g <- nan_get_value nan ;; Done (negb (to_u8 g =? 0)).

Definition nan_as_usize (nan : NaNBox) : exec Z :=
  g <- nan_get_value nan ;; Done (to_u64 g).

Definition nan_from_f64 (f : double) : NaNBox := mkNaNBox f.

(** The parameter [f] is a [uint64_t] ([uint8_t] for [nan_from_u8]);
    [nan_set_value] takes it as an [int64_t]. *)
Definition nan_from_i64 (f : Z) : exec NaNBox :=
  x <- nan_set_value nan_make_inf (to_i64 (to_u64 f)) ;;
  d <- nan_set_type x TYPE_I64 ;;
  Done (mkNaNBox d).

Definition nan_from_u64 (f : Z) : exec NaNBox :=
  x <- nan_set_value nan_make_inf (to_i64 (to_u64 f)) ;;
  d <- nan_set_type x TYPE_U64 ;;
  Done (mkNaNBox d).

Definition nan_from_u8 (f : Z) : exec NaNBox :=
  x <- nan_set_value nan_make_inf (to_i64 (to_u8 f)) ;;
  d <- nan_set_type x TYPE_U8 ;;
  Done (mkNaNBox d).

(** ** C strings *)

(** A [const char *]: either it designates a live NUL-terminated array
    whose characters are [s] (followed by the terminator), or the array
    it designated was an automatic object of a call that has returned. *)
Inductive char_ptr : Type :=
| CStr (s : string)
| Expired.

Definition char_code (c : ascii) : Z := Z.of_N (N_of_ascii c).

(** Bytes of the array, terminator excluded. *)
Fixpoint chars (s : string) : list Z :=
  match s with
  | EmptyString => []
  | String c s' => char_code c :: chars s'
  end.

(** Number of bytes before the first NUL. *)
Fixpoint c_strlen (bs : list Z) : nat :=
  match bs with
  | [] => O
  | b :: bs' => if b =? 0 then O else S (c_strlen bs')
  end.

Definition strlen (p : char_ptr) : exec nat :=
  match p with
  | CStr s => Done (c_strlen (chars s))
  | Expired => Stuck DeadObject
  end.

Definition nan_from_str (str : char_ptr) : exec NaNBox :=
  n <- strlen str ;;
  x <- nan_set_value nan_make_inf (to_i64 (to_u64 (Z.of_nat n))) ;;
  d <- nan_set_type x TYPE_STR ;;
  Done (mkNaNBox d).

(** ** Instructions *)

(** [Inst_Type] is kept as the enumerator number: the decoder casts an
    arbitrary byte to it. *)
Definition Inst_Type : Type := Z.

Module Op.
Definition push : Inst_Type := 0.
Definition pop : Inst_Type := 1.
Definition fadd : Inst_Type := 2.
Definition fdiv : Inst_Type := 3.
Definition fsub : Inst_Type := 4.
Definition fmul : Inst_Type := 5.
Definition iadd : Inst_Type := 6.
Definition idiv : Inst_Type := 7.
Definition isub : Inst_Type := 8.
Definition imul : Inst_Type := 9.
Definition inc : Inst_Type := 10.
Definition dec : Inst_Type := 11.
Definition jmp : Inst_Type := 12.
Definition je : Inst_Type := 13.
Definition jne : Inst_Type := 14.
Definition jg : Inst_Type := 15.
Definition jl : Inst_Type := 16.
Definition jle : Inst_Type := 17.
Definition jge : Inst_Type := 18.
Definition dup : Inst_Type := 20.
Definition cmp : Inst_Type := 21.
Definition dmp : Inst_Type := 22.
Definition nop : Inst_Type := 23.
Definition label : Inst_Type := 24.
Definition native : Inst_Type := 25.
Definition halt : Inst_Type := 26.
End Op.

Inductive Inst_Value_Type : Type :=
| INST_V_TYPE_NAN
| INST_V_TYPE_NONE
| INST_V_TYPE_I64
| INST_V_TYPE_U64
| INST_V_TYPE_F64
| INST_V_TYPE_STR.

Definition Inst_Value_Type_to_Z (t : Inst_Value_Type) : Z :=
  match t with
  | INST_V_TYPE_NAN => 0
  | INST_V_TYPE_NONE => 1
  | INST_V_TYPE_I64 => 2
  | INST_V_TYPE_U64 => 3
  | INST_V_TYPE_F64 => 4
  | INST_V_TYPE_STR => 5
  end.

(** The tag and the union member it selects. *)
Inductive Inst_Value : Type :=
| V_NAN (nan : NaNBox)
| V_NONE
| V_I64 (i64 : Z)
| V_U64 (u64 : Z)
| V_F64 (f64 : double)
| V_STR (str : char_ptr).

Definition inst_value_ty (x : Inst_Value) : Inst_Value_Type :=
  match x with
  | V_NAN _ => INST_V_TYPE_NAN
  | V_NONE => INST_V_TYPE_NONE
  | V_I64 _ => INST_V_TYPE_I64
  | V_U64 _ => INST_V_TYPE_U64
  | V_F64 _ => INST_V_TYPE_F64
  | V_STR _ => INST_V_TYPE_STR
  end.

Record Inst : Type := mkInst { inst_ty : Inst_Type; inst_v : Inst_Value }.

Definition inst_new (ty : Inst_Type) (v : Inst_Value) : Inst := mkInst ty v.

Definition inst_value_new_u64 (v : Z) : Inst_Value := V_U64 v.
Definition inst_value_new_f64 (v : double) : Inst_Value := V_F64 v.
Definition inst_value_new_void : Inst_Value := V_NONE.
Definition inst_value_new_nan (nan : NaNBox) : Inst_Value := V_NAN nan.
Definition inst_value_new_str (str : char_ptr) : Inst_Value := V_STR str.
Definition inst_value_new_i64 (v : Z) : Inst_Value := V_I64 v.

(** ** Memory *)

(** Object representation of an integer, least significant byte first. *)
Fixpoint le_bytes (n : nat) (x : Z) : list Z :=
  match n with
  | O => []
  | S n' => x mod 256 :: le_bytes n' (x / 256)
  end.

Fixpoint of_le_bytes (bs : list Z) : Z :=
  match bs with
  | [] => 0
  | b :: bs' => b + 256 * of_le_bytes bs'
  end.

(** [a[i] = b] on an array object [a]. *)
Fixpoint store (a : list Z) (i : nat) (b : Z) : exec (list Z) :=
  match a, i with
  | [], _ => Stuck OutOfBounds
  | _ :: a', O => Done (b :: a')
  | x :: a', S i' => a'' <- store a' i' b ;; Done (x :: a'')
  end.

(** [a[i]] on an array object [a]. *)
Definition load (a : list Z) (i : nat) : exec Z :=
  match nth_error a i with
  | Some b => Done b
  | None => Stuck OutOfBounds
  end.

(** [memcpy(a + off, src, n)]: the first [n] bytes of [src] are written
    at [a[off]], [a[off+1]], ... *)
Fixpoint write_bytes (a : list Z) (off : nat) (src : list Z) : exec (list Z) :=
  match src with
  | [] => Done a
  | b :: src' => a' <- store a off b ;; write_bytes a' (S off) src'
  end.

Definition memcpy_to (a : list Z) (off : nat) (src : list Z) (n : nat)
  : exec (list Z) :=
  if (List.length src <? n)%nat then Stuck OutOfBounds
  else write_bytes a off (firstn n src).

(** [memcpy(&obj, src + off, n)] into a local object of [size] bytes:
    the bytes copied into it. *)
Definition memcpy_from (size : nat) (src : list Z) (off n : nat)
  : exec (list Z) :=
  if (List.length src <? off + n)%nat then Stuck OutOfBounds
  else if (size <? n)%nat then Stuck ObjectOverflow
  else Done (firstn n (skipn off src)).

(** ** Binary codec *)

Definition INST_STR_CAP : nat := 14.

(** Program state the codec touches: the static array [ret] and the
    lines printed on [stderr]. *)
Record state : Type := mkState { ret : list Z; stderr : list string }.

(** Static storage is zero-initialised. *)
Definition initial_state : state := mkState (repeat 0 INST_STR_CAP) [].

(** The line the encoder prints when it refuses a string. *)
Definition too_long : string := "ERROR: String is too long".

(** A [uint8_t *] as the codec returns it. *)
Inductive byte_ptr : Type :=
| NULL
| RET.   (* the address of the static array [ret] *)

Definition set_ret (st : state) (a : list Z) : state := mkState a (stderr st).

Definition inst_value_to_bytes (inst_value : Inst_Value) (st : state)
  : exec (byte_ptr * state) :=
  let size := 1%nat in
  a <- store (ret st) size
         (to_u8 (Inst_Value_Type_to_Z (inst_value_ty inst_value))) ;;
  let size := S size in
  match inst_value with
  | V_NAN nan =>
      a <- memcpy_to a size (le_bytes 8 (v nan)) 8 ;;
      Done (RET, set_ret st a)
  | V_NONE => Done (RET, set_ret st a)
  | V_I64 i64 =>
      a <- memcpy_to a size (le_bytes 8 (to_u64 i64)) 8 ;;
      Done (RET, set_ret st a)
  | V_U64 u64 =>
      a <- memcpy_to a size (le_bytes 8 u64) 8 ;;
      Done (RET, set_ret st a)
  | V_F64 f64 =>
      a <- memcpy_to a size (le_bytes 8 f64) 8 ;;
      Done (RET, set_ret st a)
  | V_STR str =>
      len <- strlen str ;;
      if (INST_STR_CAP - size <? len)%nat then
        Done (NULL, mkState a (stderr st ++ [too_long]))
      else
        a <- store a size (to_u8 (Z.of_nat len)) ;;
        let size := S size in
        a <- match str with
             | CStr s => memcpy_to a size (chars s ++ [0]) len
             | Expired => Stuck DeadObject
             end ;;
        Done (RET, set_ret st a)
  end.

Definition inst_type_to_bytes (ty : Inst_Type) : Z := to_u8 ty.

Definition inst_to_bytes (inst : Inst) (st : state) : exec (byte_ptr * state) :=
  r <- inst_value_to_bytes (inst_v inst) st ;;
  let '(bytes, st) := r in
  match bytes with
  | NULL => Stuck AssertFailed
  | RET =>
      a <- store (ret st) 0 (inst_type_to_bytes (inst_ty inst)) ;;
      Done (RET, set_ret st a)
  end.

(** [bytes] is the array the pointer designates; [ret] is the value of
    [*ret] on entry, and the result carries its value on return. *)
Definition inst_value_from_bytes (bytes : list Z) (ret : Inst) : exec (Z * Inst) :=
  let idx := 0%nat in
  ty <- load bytes idx ;;
  let idx := S idx in
  vty <- load bytes idx ;;
  let idx := S idx in
  if vty =? Inst_Value_Type_to_Z INST_V_TYPE_NAN then
    f <- memcpy_from 8 bytes idx (idx + 8) ;;
    Done (0, inst_new ty (inst_value_new_nan (nan_from_f64 (of_le_bytes f))))
  else if vty =? Inst_Value_Type_to_Z INST_V_TYPE_NONE then
    Done (0, ret)
  else if vty =? Inst_Value_Type_to_Z INST_V_TYPE_I64 then
    f <- memcpy_from 8 bytes idx (idx + 8) ;;
    Done (0, inst_new ty (inst_value_new_i64 (to_i64 (of_le_bytes f))))
  else if vty =? Inst_Value_Type_to_Z INST_V_TYPE_U64 then
    f <- memcpy_from 8 bytes idx (idx + 8) ;;
    Done (0, inst_new ty (inst_value_new_u64 (of_le_bytes f)))
  else if vty =? Inst_Value_Type_to_Z INST_V_TYPE_F64 then
    f <- memcpy_from 8 bytes idx (idx + 8) ;;
    Done (0, inst_new ty (inst_value_new_f64 (of_le_bytes f)))
  else if vty =? Inst_Value_Type_to_Z INST_V_TYPE_STR then
    len <- load bytes idx ;;
    let idx := S idx in
    _ <- memcpy_from 16 bytes idx (idx + Z.to_nat len) ;;
    (* [str] is an automatic array: the pointer stored in [*ret] no
       longer designates an object once the call has returned *)
    Done (0, inst_new ty (inst_value_new_str Expired))
  else
    Done (1, ret).

Definition inst_from_bytes (bytes : list Z) (ret : Inst) : exec (Z * Inst) :=
  inst_value_from_bytes bytes ret.

(** The array a pointer returned by the encoder designates. *)
Definition deref (p : byte_ptr) (st : state) : exec (list Z) :=
  match p with
  | NULL => Stuck OutOfBounds
  | RET => Done (ret st)
  end.

(** [inst_from_bytes(inst_to_bytes(&x), &out)], with [out] the previous
    content of the output instruction. *)
Definition decode_encoded (x out : Inst) (st : state) : exec (Z * Inst) :=
  r <- inst_to_bytes x st ;;
  let '(p, st') := r in
  bytes <- deref p st' ;;
  inst_from_bytes bytes out.

(** ** Flags register *)

Inductive Flag : Type := FLAG_E | FLAG_G | FLAG_L | FLAG_NE | FLAG_GE | FLAG_LE.

Definition Flag_to_Z (flag : Flag) : Z :=
  match flag with
  | FLAG_E => 0
  | FLAG_G => 1
  | FLAG_L => 2
  | FLAG_NE => 3
  | FLAG_GE => 4
  | FLAG_LE => 5
  end.

Record Flags : Type := mkFlags { buf : Z }.

Definition ONE : Z := 1.

Definition flag_new : Flags := mkFlags 0.

Definition flag_set (flags : Flags) (flag : Flag) : Flags :=
  mkFlags (to_u8 (Z.lor (buf flags) (Z.shiftl ONE (to_u8 (Flag_to_Z flag))))).

Definition flag_reset (flags : Flags) (flag : Flag) : Flags :=
  mkFlags (to_u8 (Z.land (buf flags)
                         (Z.lnot (Z.shiftl ONE (to_u8 (Flag_to_Z flag)))))).

(** [is] in the source; the name is reserved here. *)
Definition flag_is (flags : Flags) (flag : Flag) : bool :=
  negb (Z.shiftr (Z.land (buf flags) (Z.shiftl ONE (to_u8 (Flag_to_Z flag))))
                 (to_u8 (Flag_to_Z flag)) =? 0).

(** ** Derived notions used to state the properties *)

(** What an in-bounds [memcpy(a + off, src, length src)] leaves in [a]. *)
Definition overwrite (a : list Z) (off : nat) (src : list Z) : list Z :=
  firstn off a ++ src ++ skipn (off + List.length src) a.

(** The bytes a call that returns [ret] has written from [ret[1]] on:
    operand tag, then payload. *)
Definition encoding (x : Inst_Value) : list Z :=
  to_u8 (Inst_Value_Type_to_Z (inst_value_ty x)) ::
  match x with
  | V_NAN nan => le_bytes 8 (v nan)
  | V_NONE => []
  | V_I64 i64 => le_bytes 8 (to_u64 i64)
  | V_U64 u64 => le_bytes 8 u64
  | V_F64 f64 => le_bytes 8 f64
  | V_STR (CStr s) =>
      let len := c_strlen (chars s) in
      to_u8 (Z.of_nat len) :: firstn len (chars s)
  | V_STR Expired => []
  end.

(** Length of the record a header announces, after the layout
    [opcode:1][operandTag:1][payload]: 8 payload bytes for tags 0, 2, 3
    and 4, none for tag 1, a length byte and that many bytes for tag 5.
    [rest] is what follows the tag in the buffer. *)
Definition record_length (vty : Z) (rest : list Z) : option nat :=
  if vty =? 0 then Some 10%nat
  else if vty =? 1 then Some 2%nat
  else if vty =? 2 then Some 10%nat
  else if vty =? 3 then Some 10%nat
  else if vty =? 4 then Some 10%nat
  else if vty =? 5 then
    match rest with
    | len :: _ => Some (3 + Z.to_nat len)%nat
    | [] => Some 3%nat
    end
  else None.

(** The buffer ends before the record its header announces does. *)
Definition truncated (bytes : list Z) : bool :=
  match bytes with
  | _ :: vty :: rest =>
      match record_length vty rest with
      | Some n => (List.length bytes <? n)%nat
      | None => false
      end
  | _ => true
  end.

(** What the byte constructor and accessor compute on one byte. *)
Definition byte_reads_false (b : Z) : bool :=
  match nan_from_u8 b with
  | Done box =>
      match nan_as_u8 box with
      | Done r => negb r
      | Stuck _ => false
      end
  | Stuck _ => false
  end.

(** What the byte constructor produces and the readers return on it:
    a value that is no NaN, tagged [TYPE_U8], with payload 0. *)
Definition byte_box_reads (b : Z) : bool :=
  match nan_from_u8 b with
  | Done box =>
      nan_is_f64 box
      && match nan_get_type box with
         | Done t => t =? Type_to_Z TYPE_U8
         | Stuck _ => false
         end
      && match nan_get_value box with
         | Done g => g =? 0
         | Stuck _ => false
         end
  | Stuck _ => false
  end.

(** [nan_as_i64 (nan_from_i64 i)] is 0. *)
Definition i64_reads_zero (i : Z) : bool :=
  match nan_from_i64 i with
  | Done box =>
      match nan_as_i64 box with
      | Done g => g =? 0
      | Stuck _ => false
      end
  | Stuck _ => false
  end.



(** * Properties *)

(** ** Flags register *)

Section FlagBits.

Lemma Flag_to_Z_range (flag : Flag) : 0 <= Flag_to_Z flag < 8.
Proof. destruct flag; simpl; lia. Qed.

Lemma Flag_to_Z_inj (a b : Flag) : Flag_to_Z a = Flag_to_Z b -> a = b.
Proof. destruct a, b; simpl; intros E; congruence || discriminate E. Qed.

Lemma flag_index (flag : Flag) : to_u8 (Flag_to_Z flag) = Flag_to_Z flag.
Proof. destruct flag; reflexivity. Qed.

Lemma mask_bit (a n : Z) :
  0 <= a -> Z.testbit (Z.shiftl ONE a) n = (a =? n).
Proof.
  intros Ha. unfold ONE. rewrite Z.shiftl_1_l. now apply Z.pow2_bits_eqb.
Qed.

Lemma u8_low_bits (x n : Z) :
  0 <= n < 8 -> Z.testbit (to_u8 x) n = Z.testbit x n.
Proof.
  intros Hn. unfold to_u8, to_unsigned. apply Z.mod_pow2_bits_low. lia.
Qed.

Lemma extract_bit (b n : Z) :
  0 <= n ->
  Z.shiftr (Z.land b (Z.shiftl ONE n)) n = Z.b2z (Z.testbit b n).
Proof.
  intros Hn. unfold ONE.
  rewrite Z.shiftr_land, Z.shiftr_shiftl_l, Z.sub_diag, Z.shiftl_0_r by lia.
  change 1 with (Z.ones 1). rewrite Z.land_ones by lia.
  rewrite Z.shiftr_div_pow2 by lia. change (2 ^ 1) with 2.
  symmetry. now apply Z.testbit_spec'.
Qed.

(** [is] reads exactly the bit the flag's tag addresses. *)
Lemma flag_is_testbit (flags : Flags) (flag : Flag) :
  flag_is flags flag = Z.testbit (buf flags) (Flag_to_Z flag).
Proof.
  unfold flag_is. rewrite flag_index.
  rewrite extract_bit by apply Flag_to_Z_range.
  now destruct (Z.testbit (buf flags) (Flag_to_Z flag)).
Qed.

Lemma flag_set_bit (flags : Flags) (a b : Flag) :
  flag_is (flag_set flags a) b
  = (flag_is flags b || (Flag_to_Z a =? Flag_to_Z b))%bool.
Proof.
  rewrite !flag_is_testbit. unfold flag_set; simpl.
  rewrite u8_low_bits by apply Flag_to_Z_range.
  rewrite flag_index, Z.lor_spec, mask_bit by apply Flag_to_Z_range.
  reflexivity.
Qed.

Lemma flag_reset_bit (flags : Flags) (a b : Flag) :
  flag_is (flag_reset flags a) b
  = (flag_is flags b && negb (Flag_to_Z a =? Flag_to_Z b))%bool.
Proof.
  rewrite !flag_is_testbit. unfold flag_reset; simpl.
  rewrite u8_low_bits by apply Flag_to_Z_range.
  rewrite flag_index, Z.land_spec, Z.lnot_spec by apply Flag_to_Z_range.
  rewrite mask_bit by apply Flag_to_Z_range.
  reflexivity.
Qed.

End FlagBits.

(** C7. Flags are independent: for two distinct flags A and B, neither
    [flag_set A] nor [flag_reset A] changes what [is] reads for B, and
    [is A] after [flag_set A] then [flag_reset A] is false. *)
Theorem flags_independent (flags : Flags) (A B : Flag) (H : A <> B) :
  flag_is (flag_set flags A) B = flag_is flags B /\
  flag_is (flag_reset flags A) B = flag_is flags B /\
  flag_is (flag_reset (flag_set flags A) A) A = false.
Proof.
  assert (Hne : (Flag_to_Z A =? Flag_to_Z B) = false).
  { apply Z.eqb_neq. intros E. apply H. now apply Flag_to_Z_inj. }
  repeat split.
  - rewrite flag_set_bit, Hne. apply orb_false_r.
  - rewrite flag_reset_bit, Hne. apply andb_true_r.
  - rewrite flag_reset_bit, Z.eqb_refl. apply andb_false_r.
Qed.

Lemma flags_independent_witness :
  FLAG_G <> FLAG_LE /\
  flag_is (flag_set (mkFlags 33) FLAG_G) FLAG_LE = true /\
  flag_is (flag_reset (mkFlags 33) FLAG_G) FLAG_LE = true /\
  flag_is (flag_reset (flag_set (mkFlags 33) FLAG_G) FLAG_G) FLAG_G = false.
Proof.
  assert (Hd : FLAG_G <> FLAG_LE) by discriminate.
  split; [exact Hd|].
  exact (flags_independent (mkFlags 33) FLAG_G FLAG_LE Hd).
Defined.

(** ** Array writes *)

Section ArrayWrites.

Lemma store_done (a : list Z) (i : nat) (b : Z) :
  (i < List.length a)%nat -> store a i b = Done (overwrite a i [b]).
Proof.
  revert i. induction a as [|x a IH]; intros i Hi; simpl in Hi.
  - lia.
  - destruct i as [|i]; simpl.
    + reflexivity.
    + rewrite IH by lia. unfold overwrite. simpl. reflexivity.
Qed.

Lemma store_stuck (a : list Z) (i : nat) (b : Z) :
  (List.length a <= i)%nat -> store a i b = Stuck OutOfBounds.
Proof.
  revert i. induction a as [|x a IH]; intros i Hi; simpl in *.
  - now destruct i.
  - destruct i as [|i]; [lia|]. rewrite IH by lia. reflexivity.
Qed.

Lemma overwrite_length (a : list Z) (off : nat) (src : list Z) :
  (off + List.length src <= List.length a)%nat ->
  List.length (overwrite a off src) = List.length a.
Proof.
  intros H. unfold overwrite.
  rewrite !length_app, length_firstn, length_skipn. lia.
Qed.

Lemma overwrite_cons (a : list Z) (off : nat) (b : Z) (src : list Z) :
  (off < List.length a)%nat ->
  overwrite (overwrite a off [b]) (S off) src = overwrite a off (b :: src).
Proof.
  intros H. unfold overwrite.
  assert (Hf : List.length (firstn off a) = off)
    by (rewrite length_firstn; lia).
  rewrite firstn_app, Hf, firstn_all2 by lia.
  replace (S off - off)%nat with 1%nat by lia.
  rewrite skipn_app, Hf, (skipn_all2 (firstn off a)) by lia.
  replace (S off + List.length src - off)%nat
    with (S (List.length src)) by lia.
  cbn [firstn skipn app List.length].
  rewrite <- app_assoc, skipn_skipn. cbn [app].
  do 2 f_equal. f_equal. f_equal. lia.
Qed.

Lemma write_bytes_done (src a : list Z) (off : nat) :
  (off + List.length src <= List.length a)%nat ->
  write_bytes a off src = Done (overwrite a off src).
Proof.
  revert a off. induction src as [|b src IH]; intros a off H; simpl in *.
  - unfold overwrite. simpl. rewrite Nat.add_0_r, firstn_skipn. reflexivity.
  - rewrite store_done by lia. simpl.
    rewrite IH by (rewrite overwrite_length; simpl; lia).
    rewrite overwrite_cons by lia. reflexivity.
Qed.

Lemma write_bytes_stuck (src a : list Z) (off : nat) :
  src <> [] ->
  (List.length a < off + List.length src)%nat ->
  write_bytes a off src = Stuck OutOfBounds.
Proof.
  revert a off. induction src as [|b src IH]; intros a off Hne H.
  - congruence.
  - simpl in *.
    destruct (Nat.lt_ge_cases off (List.length a)) as [Hin|Hout].
    + rewrite store_done by exact Hin. simpl.
      apply IH.
      * destruct src; [simpl in H; lia | discriminate].
      * rewrite overwrite_length; simpl; lia.
    + now rewrite store_stuck.
Qed.

Lemma le_bytes_length (n : nat) (x : Z) : List.length (le_bytes n x) = n.
Proof. revert x. induction n; intros x; simpl; auto. Qed.

Lemma memcpy_to_done (a : list Z) (off : nat) (src : list Z) :
  (off + List.length src <= List.length a)%nat ->
  memcpy_to a off src (List.length src) = Done (overwrite a off src).
Proof.
  intros H. unfold memcpy_to.
  rewrite Nat.ltb_irrefl, firstn_all. now apply write_bytes_done.
Qed.

End ArrayWrites.

(** ** Encoder *)

Section Encoder.

Lemma c_strlen_le (bs : list Z) : (c_strlen bs <= List.length bs)%nat.
Proof.
  induction bs as [|b bs IH]; simpl; [lia|].
  destruct (b =? 0); simpl; lia.
Qed.

Lemma memcpy_to_8 (a : list Z) (off : nat) (x : Z) :
  memcpy_to a off (le_bytes 8 x) 8 = write_bytes a off (le_bytes 8 x).
Proof. reflexivity. Qed.

Lemma memcpy_to_str (a : list Z) (off : nat) (s : string) :
  memcpy_to a off (chars s ++ [0]) (c_strlen (chars s))
  = write_bytes a off (firstn (c_strlen (chars s)) (chars s)).
Proof.
  pose proof (c_strlen_le (chars s)) as Hle. unfold memcpy_to.
  replace (List.length (chars s ++ [0%Z]) <? c_strlen (chars s))%nat with false
    by (symmetry; apply Nat.ltb_ge; rewrite length_app; lia).
  rewrite firstn_app.
  replace (c_strlen (chars s) - List.length (chars s))%nat with O by lia.
  simpl. now rewrite app_nil_r.
Qed.

(** Either the write fits, or it runs past the array. *)
Lemma write_bytes_cases (a : list Z) (off : nat) (src : list Z) :
  (src <> [] -> (off + List.length src <= List.length a)%nat) /\
  write_bytes a off src = Done (overwrite a off src)
  \/ write_bytes a off src = Stuck OutOfBounds.
Proof.
  destruct src as [|b src].
  - left. split; [congruence|]. unfold overwrite. simpl.
    now rewrite Nat.add_0_r, firstn_skipn.
  - destruct (Nat.le_gt_cases (off + List.length (b :: src)) (List.length a))
      as [H|H].
    + left. split; [intros _; exact H | now apply write_bytes_done].
    + right. apply write_bytes_stuck; [discriminate | exact H].
Qed.

Ltac split_write :=
  match goal with
  | |- context [write_bytes ?a ?o ?src] =>
      destruct (write_bytes_cases a o src) as [[_ ->]| ->];
      cbn [bind]; [|discriminate]
  end.

Lemma inst_value_to_bytes_in_bounds (x : Inst_Value) (st : state) (r : byte_ptr * state) :
  inst_value_to_bytes x st = Done r -> (1 < List.length (ret st))%nat.
Proof.
  intros H.
  destruct (Nat.lt_ge_cases 1 (List.length (ret st))) as [L|L]; [exact L|].
  unfold inst_value_to_bytes in H. rewrite store_stuck in H by exact L.
  discriminate H.
Qed.

(** A successful encoding overwrites [ret[1 ..]] with tag and payload
    and nothing else. *)
Lemma inst_value_to_bytes_ret (x : Inst_Value) (st st' : state) :
  inst_value_to_bytes x st = Done (RET, st') ->
  ret st' = overwrite (ret st) 1 (encoding x) /\ stderr st' = stderr st.
Proof.
  intros H. pose proof (inst_value_to_bytes_in_bounds _ _ _ H) as H1.
  revert H. unfold inst_value_to_bytes.
  rewrite store_done by exact H1. cbn [bind].
  destruct x as [nan| |i64|u64|f64|[s|]]; cbn [inst_value_ty encoding].
  - rewrite memcpy_to_8. split_write.
    intros [= <-]. cbn [ret stderr set_ret]. now rewrite overwrite_cons.
  - intros [= <-]. now split.
  - rewrite memcpy_to_8. split_write.
    intros [= <-]. cbn [ret stderr set_ret]. now rewrite overwrite_cons.
  - rewrite memcpy_to_8. split_write.
    intros [= <-]. cbn [ret stderr set_ret]. now rewrite overwrite_cons.
  - rewrite memcpy_to_8. split_write.
    intros [= <-]. cbn [ret stderr set_ret]. now rewrite overwrite_cons.
  - cbn [strlen bind].
    destruct (INST_STR_CAP - 2 <? c_strlen (chars s))%nat; [discriminate|].
    match goal with
    | |- context [store ?a 2%nat ?b] =>
        destruct (Nat.lt_ge_cases 2 (List.length a)) as [H2|H2];
        [rewrite (store_done a 2 b H2) | rewrite (store_stuck a 2 b H2)];
        cbn [bind]; [|discriminate]
    end.
    rewrite memcpy_to_str. split_write.
    intros [= <-]. cbn [ret stderr set_ret].
    rewrite overwrite_cons by exact H2. now rewrite overwrite_cons.
  - cbn [strlen bind]. discriminate.
Qed.

(** The capacity check as the code has it: more than
    [INST_STR_CAP - 2 = 12] characters are refused, after the tag has
    been stored. *)
Lemma inst_value_to_bytes_refused (s : string) (st : state) :
  (1 < List.length (ret st))%nat ->
  (12 < c_strlen (chars s))%nat ->
  inst_value_to_bytes (inst_value_new_str (CStr s)) st
  = Done (NULL, mkState (overwrite (ret st) 1 [5]) (stderr st ++ [too_long])).
Proof.
  intros H1 H. unfold inst_value_to_bytes. rewrite store_done by exact H1.
  simpl.
  replace (12 <? c_strlen (chars s))%nat with true
    by (symmetry; apply Nat.ltb_lt; lia).
  reflexivity.
Qed.

(** Twelve characters pass the check, although with tag and length
    byte only eleven fit: the copy runs one byte past [ret]. *)
Lemma inst_value_to_bytes_overrun (s : string) (st : state) :
  List.length (ret st) = INST_STR_CAP ->
  c_strlen (chars s) = 12%nat ->
  inst_value_to_bytes (inst_value_new_str (CStr s)) st = Stuck OutOfBounds.
Proof.
  intros H14 H. unfold INST_STR_CAP in H14.
  pose proof (c_strlen_le (chars s)) as Hle.
  unfold inst_value_to_bytes. rewrite store_done by lia. simpl.
  rewrite H. simpl.
  rewrite store_done by (rewrite overwrite_length; simpl; lia). simpl.
  rewrite <- H, memcpy_to_str, write_bytes_stuck; [reflexivity| |].
  - intros E. apply (f_equal (@List.length Z)) in E.
    rewrite length_firstn in E. simpl in E. lia.
  - rewrite !overwrite_length by (try rewrite overwrite_length; simpl; lia).
    rewrite length_firstn. lia.
Qed.

End Encoder.

(** ** Decoder *)

Section Decoder.

Lemma memcpy_from_short (size : nat) (src : list Z) (off n : nat) :
  (List.length src < off + n)%nat ->
  memcpy_from size src off n = Stuck OutOfBounds.
Proof.
  intros H. unfold memcpy_from.
  now replace (List.length src <? off + n)%nat with true
    by (symmetry; apply Nat.ltb_lt; exact H).
Qed.

(** Every payload copy asks for [idx] bytes more than the payload. *)
Lemma memcpy_from_payload (bytes : list Z) :
  memcpy_from 8 bytes 2 (2 + 8) = Stuck OutOfBounds \/
  memcpy_from 8 bytes 2 (2 + 8) = Stuck ObjectOverflow.
Proof.
  unfold memcpy_from.
  destruct (List.length bytes <? 2 + (2 + 8))%nat; [now left | now right].
Qed.

Lemma inst_value_from_bytes_truncated (bytes : list Z) (out : Inst) :
  truncated bytes = true ->
  inst_value_from_bytes bytes out = Stuck OutOfBounds.
Proof.
  destruct bytes as [|ty [|vty rest]]; try reflexivity.
  unfold truncated, record_length, inst_value_from_bytes.
  cbn [load nth_error bind Inst_Value_Type_to_Z].
  destruct (vty =? 0);
    [|destruct (vty =? 1);
      [|destruct (vty =? 2);
        [|destruct (vty =? 3);
          [|destruct (vty =? 4); [|destruct (vty =? 5)]]]]];
    intros H; try discriminate H;
    try (apply Nat.ltb_lt in H; rewrite memcpy_from_short; [reflexivity|];
         cbn [List.length] in *; lia).
  destruct rest as [|len rest']; [reflexivity|].
  apply Nat.ltb_lt in H. cbn [load nth_error bind].
  rewrite memcpy_from_short; [reflexivity|].
  cbn [List.length] in *. lia.
Qed.

Lemma inst_value_from_bytes_error (bytes : list Z) (out out' : Inst) (rc : Z) :
  inst_value_from_bytes bytes out = Done (rc, out') ->
  rc <> 0 ->
  rc = 1 /\ out' = out /\
  exists ty vty rest, bytes = ty :: vty :: rest /\ (vty < 0 \/ 5 < vty).
Proof.
  destruct bytes as [|ty [|vty rest]]; try discriminate.
  unfold inst_value_from_bytes.
  cbn [load nth_error bind Inst_Value_Type_to_Z].
  destruct (Z.eqb_spec vty 0) as [|N0];
    [|destruct (Z.eqb_spec vty 1) as [|N1];
      [|destruct (Z.eqb_spec vty 2) as [|N2];
        [|destruct (Z.eqb_spec vty 3) as [|N3];
          [|destruct (Z.eqb_spec vty 4) as [|N4];
            [|destruct (Z.eqb_spec vty 5) as [|N5]]]]]];
    try (destruct (memcpy_from_payload (ty :: vty :: rest)) as [-> | ->];
         discriminate).
  - intros [= <- <-] Hrc. now contradiction Hrc.
  - destruct rest as [|len rest']; [discriminate|].
    cbn [load nth_error bind].
    destruct (memcpy_from 16 _ 3 _); cbn [bind]; [|discriminate].
    intros [= <- <-] Hrc. now contradiction Hrc.
  - intros [= <- <-] _. repeat split.
    exists ty, vty, rest. split; [reflexivity | lia].
Qed.

End Decoder.

(** ** The claims about the codec *)

(** C3. Decoding the record produced for an instruction with no operand
    does not give the instruction back: the decoder returns 0 and
    leaves the output instruction as it was before the call. *)
Theorem decode_encode_none_keeps_old :
  decode_encoded (inst_new Op.nop inst_value_new_void)
                 (inst_new Op.push (inst_value_new_i64 7)) initial_state
  = Done (0, inst_new Op.push (inst_value_new_i64 7))
  /\ inst_new Op.push (inst_value_new_i64 7)
     <> inst_new Op.nop inst_value_new_void.
Proof. split; [reflexivity | discriminate]. Qed.

(** The same for every opcode, output instruction and buffer content. *)
Lemma decode_encoded_none (ty : Inst_Type) (out : Inst) (st : state) :
  (2 <= List.length (ret st))%nat ->
  decode_encoded (inst_new ty inst_value_new_void) out st = Done (0, out).
Proof.
  destruct st as [[|a0 [|a1 r]] e]; simpl; try lia.
  intros _. reflexivity.
Qed.

(** The 8-byte operands fare no better: the payload copy of the decoder
    is [idx + 8 = 10] bytes into an 8-byte object. *)
Lemma decode_encode_i64_overflows :
  decode_encoded (inst_new Op.push (inst_value_new_i64 7))
                 (inst_new Op.nop inst_value_new_void) initial_state
  = Stuck ObjectOverflow.
Proof. reflexivity. Qed.

(** A decoded string operand points into the frame of the decoder. *)
Lemma decode_encode_str_expired :
  decode_encoded (inst_new Op.label (inst_value_new_str (CStr "abc")))
                 (inst_new Op.nop inst_value_new_void) initial_state
  = Done (0, inst_new Op.label (inst_value_new_str Expired)).
Proof. reflexivity. Qed.

(** C4 as stated fails: on a record cut short after one payload byte
    the decoder does not return an error, it reads past the buffer. *)
Lemma decode_truncated_counterexample :
  ~ (truncated [0; 2; 7] = true ->
     exists rc, rc <> 0 /\
       inst_value_from_bytes [0; 2; 7] (inst_new Op.nop inst_value_new_void)
       = Done (rc, inst_new Op.nop inst_value_new_void)).
Proof.
  intros H. destruct (H eq_refl) as [rc [_ E]]. discriminate E.
Qed.

(** C4, amended. The decoder takes no buffer length and validates none:
    on a buffer that ends before the announced record it reads out of
    bounds, and its only error return, 1, is for an operand tag outside
    0..5 (the output instruction is then untouched). *)
Theorem decode_does_not_validate_length (bytes : list Z) (out : Inst) :
  (truncated bytes = true ->
   inst_value_from_bytes bytes out = Stuck OutOfBounds) /\
  (forall rc out',
     inst_value_from_bytes bytes out = Done (rc, out') ->
     rc <> 0 ->
     rc = 1 /\ out' = out /\
     exists ty vty rest, bytes = ty :: vty :: rest /\ (vty < 0 \/ 5 < vty)).
Proof.
  split.
  - apply inst_value_from_bytes_truncated.
  - intros rc out'. apply inst_value_from_bytes_error.
Qed.

Lemma decode_does_not_validate_length_witness :
  inst_value_from_bytes [0; 5; 3; 97] (inst_new Op.nop inst_value_new_void)
  = Stuck OutOfBounds
  /\ exists ty vty rest, [0; 9; 7] = ty :: vty :: rest /\ (vty < 0 \/ 5 < vty).
Proof.
  split.
  - exact (proj1 (decode_does_not_validate_length [0; 5; 3; 97]
                    (inst_new Op.nop inst_value_new_void)) eq_refl).
  - exact (proj2 (proj2
             (proj2 (decode_does_not_validate_length [0; 9; 7]
                       (inst_new Op.nop inst_value_new_void))
                1 (inst_new Op.nop inst_value_new_void) eq_refl
                ltac:(discriminate)))).
Defined.

(** C5. A string of twelve characters exceeds what is left of the
    14-byte record after opcode, tag and length byte, yet it is not
    refused: the copy runs past the end of [ret]. *)
Theorem encode_str_12_overruns :
  inst_value_to_bytes (inst_value_new_str (CStr "abcdefghijkl")) initial_state
  = Stuck OutOfBounds.
Proof.
  apply inst_value_to_bytes_overrun; reflexivity.
Qed.

(** C6 as stated fails: the record returned for the first operand reads
    differently once a second operand has been encoded. *)
Lemma encode_independent_counterexample :
  exists st1 st2,
    inst_value_to_bytes (inst_value_new_i64 1) initial_state = Done (RET, st1) /\
    inst_value_to_bytes (inst_value_new_i64 2) st1 = Done (RET, st2) /\
    deref RET st2 <> deref RET st1.
Proof.
  eexists. eexists. split; [reflexivity|]. split; [reflexivity|].
  discriminate.
Qed.

(** C6, amended. The encoder works in the one static array [ret] and
    returns its address: when two operands are encoded in turn, the
    record returned for the first is that array, and after the second
    call it holds the second operand's tag and payload written over the
    first's from byte 1 on. *)
Theorem encode_shares_static_buffer
  (x y : Inst_Value) (st st1 st2 : state) :
  inst_value_to_bytes x st = Done (RET, st1) ->
  inst_value_to_bytes y st1 = Done (RET, st2) ->
  deref RET st1 = Done (overwrite (ret st) 1 (encoding x)) /\
  deref RET st2
  = Done (overwrite (overwrite (ret st) 1 (encoding x)) 1 (encoding y)).
Proof.
  intros Hx Hy.
  apply inst_value_to_bytes_ret in Hx. destruct Hx as [Hx _].
  apply inst_value_to_bytes_ret in Hy. destruct Hy as [Hy _].
  unfold deref. rewrite Hy, Hx. split; reflexivity.
Qed.

Lemma encode_shares_static_buffer_witness :
  deref RET (mkState [0; 2; 1; 0; 0; 0; 0; 0; 0; 0; 0; 0; 0; 0] [])
  = Done [0; 2; 1; 0; 0; 0; 0; 0; 0; 0; 0; 0; 0; 0] /\
  deref RET (mkState [0; 5; 2; 104; 105; 0; 0; 0; 0; 0; 0; 0; 0; 0] [])
  = Done [0; 5; 2; 104; 105; 0; 0; 0; 0; 0; 0; 0; 0; 0].
Proof.
  exact (encode_shares_static_buffer
           (inst_value_new_i64 1) (inst_value_new_str (CStr "hi"))
           initial_state
           (mkState [0; 2; 1; 0; 0; 0; 0; 0; 0; 0; 0; 0; 0; 0] [])
           (mkState [0; 5; 2; 104; 105; 0; 0; 0; 0; 0; 0; 0; 0; 0] [])
           eq_refl eq_refl).
Defined.

(** C9. On a record whose operand tag (second byte) is
    [INST_V_TYPE_NONE] the decoder returns 0 and leaves the output
    instruction as it was, whatever the opcode byte and whatever
    follows. *)
Theorem decode_none_leaves_output (bytes : list Z) (out : Inst) :
  nth_error bytes 1 = Some (Inst_Value_Type_to_Z INST_V_TYPE_NONE) ->
  inst_value_from_bytes bytes out = Done (0, out).
Proof.
  destruct bytes as [|ty [|vty rest]]; cbn [nth_error]; try discriminate.
  intros [= ->]. reflexivity.
Qed.

Lemma decode_none_leaves_output_witness :
  inst_value_from_bytes [Op.halt; 1; 42] (inst_new Op.push (inst_value_new_i64 7))
  = Done (0, inst_new Op.push (inst_value_new_i64 7)).
Proof.
  exact (decode_none_leaves_output [Op.halt; 1; 42]
           (inst_new Op.push (inst_value_new_i64 7)) eq_refl).
Defined.

(** ** Tagged values *)

Section TaggedValues.

Lemma SFeqb_refl_iff (x : spec_float) : SFeqb x x = true <-> x <> S754_nan.
Proof.
  unfold SFeqb. destruct x as [s|s| |s m e]; simpl.
  - split; [discriminate | reflexivity].
  - destruct s; (split; [discriminate | reflexivity]).
  - split; [discriminate | congruence].
  - rewrite Z.compare_refl, Pos.compare_cont_refl.
    destruct s; (split; [discriminate | reflexivity]).
Qed.

(** [nan_is_f64] holds exactly of the patterns that are not a NaN. *)
Lemma nan_is_f64_iff (nan : NaNBox) :
  nan_is_f64 nan = true <-> SF_of_bits (v nan) <> S754_nan.
Proof.
  unfold nan_is_f64, nan_is_nan, double_ne.
  rewrite negb_involutive. apply SFeqb_refl_iff.
Qed.

Lemma nan_is_f64_from_f64 (f : double) :
  SF_of_bits f <> S754_nan -> nan_is_f64 (nan_from_f64 f) = true.
Proof. intros H. now apply nan_is_f64_iff. Qed.

(** The conversions on familiar values: 1.0, a round trip through
    double, a tie rounded to even, and the default quiet NaN. *)
Example double_of_u64_one : double_of_u64 1 = 4607182418800017408.
Proof. reflexivity. Qed.

Example u64_of_double_three : u64_of_double (double_of_u64 3) = Done 3.
Proof. reflexivity. Qed.

Example double_of_u64_tie : double_of_u64 (2 ^ 53 + 1) = double_of_u64 (2 ^ 53).
Proof. reflexivity. Qed.

Example quiet_nan_is_not_f64 :
  nan_is_f64 (nan_from_f64 (bits_of_SF S754_nan)) = false.
Proof. reflexivity. Qed.

(** The box of an integer is an ordinary finite double: the integer
    pattern is converted by value, [(double) bits], not reinterpreted. *)
Example nan_make_inf_value :
  SF_of_bits nan_make_inf = S754_finite false 9002801208229888 10.
Proof. reflexivity. Qed.

(** The boxed predicates ask for a NaN, which no constructor makes. *)
Example nan_is_i64_of_boxed :
  (box <- nan_from_i64 1 ;; nan_is_i64 box) = Done false.
Proof. reflexivity. Qed.

(** The box of zero: the integer pattern 0xFFF0000000000000 is held as
    the double of that value, whose own sign bit is clear. *)
Example nan_from_i64_zero_value :
  nan_from_i64 0 = Done (mkNaNBox 4895410595928473600) /\
  SF_of_bits 4895410595928473600 = S754_finite false 9005000231485440 11 /\
  Z.testbit 4895410595928473600 63 = false.
Proof. repeat split. Qed.

Lemma all_bytes_read_false :
  forallb byte_reads_false (map Z.of_nat (seq 0 256)) = true.
Proof. vm_compute. reflexivity. Qed.

Lemma byte_reads_false_spec (b : Z) :
  0 <= b < 256 ->
  exists box, nan_from_u8 b = Done box /\ nan_as_u8 box = Done false.
Proof.
  intros Hb.
  assert (Hin : In b (map Z.of_nat (seq 0 256))).
  { apply in_map_iff. exists (Z.to_nat b). split; [lia|].
    apply in_seq. lia. }
  pose proof (proj1 (forallb_forall _ _) all_bytes_read_false b Hin) as Hc.
  unfold byte_reads_false in Hc.
  destruct (nan_from_u8 b) as [box|]; [|discriminate].
  exists box. split; [reflexivity|].
  destruct (nan_as_u8 box) as [[|]|]; try discriminate. reflexivity.
Qed.

End TaggedValues.

(** C1. The value conversions leave the box of an integer an ordinary
    finite double, so [nan_is_f64] answers true on what [nan_from_i64],
    [nan_from_u64] and [nan_from_u8] produce. *)
Theorem boxed_integers_read_as_floats :
  (exists box, nan_from_i64 1 = Done box /\ nan_is_f64 box = true) /\
  (exists box, nan_from_u64 1 = Done box /\ nan_is_f64 box = true) /\
  (exists box, nan_from_u8 1 = Done box /\ nan_is_f64 box = true).
Proof.
  repeat split; eexists; (split; [reflexivity | reflexivity]).
Qed.

(** C2. [nan_as_i64 (nan_from_i64 i)] is not [i]: the payload of 5 is
    rounded away by the conversion to double, and the sign of -1024 is
    dropped by [abs] and never stored. *)
Theorem i64_roundtrip_loses_value :
  (box <- nan_from_i64 5 ;; nan_as_i64 box) = Done 0 /\
  (box <- nan_from_i64 (to_u64 (-1024)) ;; nan_as_i64 box) = Done 1024.
Proof. split; reflexivity. Qed.

(** C8. The sign bit of the box of zero is not set. [nan_set_value]
    sets bit 63 of the integer pattern when its argument is 0, but the
    pattern is then converted to double by value: in the 64-bit
    pattern of the box that [nan_from_i64], [nan_from_u64] return for
    0, bit 63 is clear. For the argument 2^32, whose stored magnitude
    [abs((int) v)] is zero as well, bit 63 is clear in the integer
    pattern too. [nan_get_value] reads 0 from each. *)
Theorem zero_box_sign_bit_clear :
  (exists box,
      nan_from_i64 0 = Done box /\ Z.testbit (v box) 63 = false /\
      nan_get_value box = Done 0) /\
  (exists box,
      nan_from_u64 0 = Done box /\ Z.testbit (v box) 63 = false /\
      nan_get_value box = Done 0) /\
  (exists box bits,
      nan_from_i64 (2 ^ 32) = Done box /\
      u64_of_double (v box) = Done bits /\ Z.testbit bits 63 = false /\
      Z.testbit (v box) 63 = false /\ nan_get_value box = Done 0).
Proof.
  repeat split; repeat eexists; reflexivity.
Qed.

(** The integer the code converts the box of zero back to,
    [(uint64_t) nan->v], does have bit 63 set. *)
Lemma zero_has_sign_bit_set :
  (exists box bits,
      nan_from_i64 0 = Done box /\ u64_of_double (v box) = Done bits /\
      Z.testbit bits 63 = true /\ nan_get_value box = Done 0) /\
  (exists box bits,
      nan_from_u64 0 = Done box /\ u64_of_double (v box) = Done bits /\
      Z.testbit bits 63 = true /\ nan_get_value box = Done 0) /\
  (exists box bits,
      nan_from_u8 0 = Done box /\ u64_of_double (v box) = Done bits /\
      Z.testbit bits 63 = true /\ nan_get_value box = Done 0).
Proof.
  repeat split; eexists; eexists; repeat split; reflexivity.
Qed.

(** C10. [nan_as_u8] returns a [bool], so its result is 0 or 1, and no
    byte from 2 on comes back from [nan_as_u8 (nan_from_u8 b)]. *)
Theorem as_u8_returns_bool (b : Z) (H : 2 <= b < 256) :
  (forall box r, nan_as_u8 box = Done r -> Z.b2z r = 0 \/ Z.b2z r = 1) /\
  exists box r,
    nan_from_u8 b = Done box /\ nan_as_u8 box = Done r /\ Z.b2z r <> b.
Proof.
  split.
  - intros box [|] _; [now right | now left].
  - destruct (byte_reads_false_spec b) as [box [Hbox Hr]]; [lia|].
    exists box, false. repeat split; try assumption. simpl. lia.
Qed.

Lemma as_u8_returns_bool_witness :
  2 <= 7 < 256 /\
  exists box r,
    nan_from_u8 7 = Done box /\ nan_as_u8 box = Done r /\ Z.b2z r <> 7.
Proof.
  assert (H : 2 <= 7 < 256) by lia.
  split; [exact H|].
  exact (proj2 (as_u8_returns_bool 7 H)).
Defined.

(** * Further properties of the code *)

(** ** Flags register: updates as operations on the whole register *)

Section FlagUpdates.

Lemma u8_bits (x n : Z) :
  0 <= n -> Z.testbit (to_u8 x) n = ((n <? 8) && Z.testbit x n)%bool.
Proof.
  intros Hn. unfold to_u8, to_unsigned.
  destruct (Z.ltb_spec n 8) as [Hlt|Hge]; cbn [andb].
  - apply Z.mod_pow2_bits_low. lia.
  - apply Z.mod_pow2_bits_high. lia.
Qed.

Lemma byte_high_bits (b n : Z) :
  0 <= b < 256 -> 8 <= n -> Z.testbit b n = false.
Proof.
  intros Hb Hn.
  replace b with (to_u8 b) by (apply Z.mod_small; change (2 ^ 8) with 256; lia).
  rewrite u8_bits by lia.
  now replace (n <? 8) with false by (symmetry; apply Z.ltb_ge; lia).
Qed.

Lemma flag_set_buf_bit (flags : Flags) (a : Flag) (n : Z) :
  0 <= n ->
  Z.testbit (buf (flag_set flags a)) n
  = ((n <? 8) && (Z.testbit (buf flags) n || (Flag_to_Z a =? n)))%bool.
Proof.
  intros Hn. unfold flag_set. cbn [buf].
  rewrite u8_bits, flag_index, Z.lor_spec, mask_bit;
    try apply Flag_to_Z_range; try exact Hn.
  reflexivity.
Qed.

Lemma flag_reset_buf_bit (flags : Flags) (a : Flag) (n : Z) :
  0 <= n ->
  Z.testbit (buf (flag_reset flags a)) n
  = ((n <? 8) && (Z.testbit (buf flags) n && negb (Flag_to_Z a =? n)))%bool.
Proof.
  intros Hn. unfold flag_reset. cbn [buf].
  rewrite u8_bits, flag_index, Z.land_spec, Z.lnot_spec, mask_bit;
    try apply Flag_to_Z_range; try exact Hn.
  reflexivity.
Qed.

Lemma Flags_ext (f g : Flags) :
  (forall n, 0 <= n -> Z.testbit (buf f) n = Z.testbit (buf g) n) -> f = g.
Proof.
  destruct f as [x], g as [y]. cbn [buf]. intros H.
  f_equal. now apply Z.bits_inj'.
Qed.

Ltac flag_bits :=
  apply Flags_ext; intros n Hn;
  repeat first [ rewrite flag_set_buf_bit by exact Hn
               | rewrite flag_reset_buf_bit by exact Hn ];
  repeat match goal with
         | |- context [?x =? n] => destruct (x =? n)
         | |- context [n <? 8] => destruct (n <? 8)
         | |- context [Z.testbit ?b n] => destruct (Z.testbit b n)
         end;
  try reflexivity.

Lemma flag_set_comm (flags : Flags) (a b : Flag) :
  flag_set (flag_set flags a) b = flag_set (flag_set flags b) a.
Proof. flag_bits. Qed.

Lemma flag_reset_comm (flags : Flags) (a b : Flag) :
  flag_reset (flag_reset flags a) b = flag_reset (flag_reset flags b) a.
Proof. flag_bits. Qed.

Lemma flag_set_idem (flags : Flags) (a : Flag) :
  flag_set (flag_set flags a) a = flag_set flags a.
Proof. flag_bits. Qed.

Lemma flag_reset_idem (flags : Flags) (a : Flag) :
  flag_reset (flag_reset flags a) a = flag_reset flags a.
Proof. flag_bits. Qed.

End FlagUpdates.

(** X1. Whatever the register holds, a flag reads true right after
    [flag_set] and false right after [flag_reset]. *)
Theorem flag_reads_back (flags : Flags) (A : Flag) :
  flag_is (flag_set flags A) A = true /\
  flag_is (flag_reset flags A) A = false.
Proof.
  rewrite flag_set_bit, flag_reset_bit, Z.eqb_refl.
  split; [apply orb_true_r | apply andb_false_r].
Qed.

(** X2. On a register made by [flag_new] every flag reads false, and
    after one [flag_set A] a flag B reads true exactly when B is A. *)
Theorem flag_new_is_clear (A B : Flag) :
  flag_is flag_new B = false /\
  (flag_is (flag_set flag_new A) B = true <-> A = B).
Proof.
  assert (Hnew : flag_is flag_new B = false).
  { rewrite flag_is_testbit. apply Z.testbit_0_l. }
  split; [exact Hnew|].
  rewrite flag_set_bit, Hnew. simpl. rewrite Z.eqb_eq.
  split; [apply Flag_to_Z_inj | now intros ->].
Qed.

(** X3. The order of two [flag_set] calls, or of two [flag_reset]
    calls, does not matter, and repeating a call changes nothing: the
    resulting registers are equal. *)
Theorem flag_updates_commute (flags : Flags) (A B : Flag) :
  flag_set (flag_set flags A) B = flag_set (flag_set flags B) A /\
  flag_reset (flag_reset flags A) B = flag_reset (flag_reset flags B) A /\
  flag_set (flag_set flags A) A = flag_set flags A /\
  flag_reset (flag_reset flags A) A = flag_reset flags A.
Proof.
  repeat split.
  - apply flag_set_comm.
  - apply flag_reset_comm.
  - apply flag_set_idem.
  - apply flag_reset_idem.
Qed.

(** X4. When a flag is clear in an 8-bit register, setting and then
    resetting it gives the register back unchanged. *)
Theorem flag_set_reset_restores (flags : Flags) (A : Flag) :
  0 <= buf flags < 256 ->
  flag_is flags A = false ->
  flag_reset (flag_set flags A) A = flags.
Proof.
  intros Hb Hclear. rewrite flag_is_testbit in Hclear.
  apply Flags_ext. intros n Hn.
  rewrite flag_reset_buf_bit, flag_set_buf_bit by exact Hn.
  destruct (Z.eqb_spec (Flag_to_Z A) n) as [<-|Hne].
  - rewrite Hclear. now destruct (Flag_to_Z A <? 8).
  - destruct (Z.ltb_spec n 8) as [Hlt|Hge]; simpl.
    + now rewrite orb_false_r, andb_true_r.
    + symmetry. now apply byte_high_bits.
Qed.

Lemma flag_set_reset_restores_witness :
  flag_reset (flag_set (mkFlags 5) FLAG_NE) FLAG_NE = mkFlags 5.
Proof.
  assert (Hb : 0 <= buf (mkFlags 5) < 256) by (simpl; lia).
  exact (flag_set_reset_restores (mkFlags 5) FLAG_NE Hb eq_refl).
Defined.

(** ** Tagged values: predicates and accessors on arbitrary values *)

Section Accessors.

Lemma to_i64_small (x : Z) : - 2 ^ 63 <= x < 2 ^ 63 -> to_i64 x = x.
Proof.
  intros H. unfold to_i64, to_signed. change (64 - 1) with 63.
  destruct (Z.neg_nonneg_cases x) as [Hneg|Hpos].
  - replace (x mod 2 ^ 64) with (x + 2 ^ 64)
      by (apply Z.mod_unique with (q := -1); lia).
    replace (x + 2 ^ 64 <? 2 ^ 63) with false
      by (symmetry; apply Z.ltb_ge; lia).
    lia.
  - rewrite Z.mod_small by lia.
    now replace (x <? 2 ^ 63) with true by (symmetry; apply Z.ltb_lt; lia).
Qed.

Lemma VALUE_MASK_ones : VALUE_MASK = Z.ones 48.
Proof. reflexivity. Qed.

Lemma payload_range (bits : Z) : 0 <= Z.land bits VALUE_MASK < 2 ^ 48.
Proof.
  rewrite VALUE_MASK_ones, Z.land_ones by lia.
  apply Z.mod_pos_bound. lia.
Qed.

Lemma type_field_range (bits : Z) :
  0 <= Z.shiftr (Z.land bits TYPE_MASK) 48 < 16.
Proof.
  rewrite Z.shiftr_land.
  change (Z.shiftr TYPE_MASK 48) with (Z.ones 4).
  rewrite Z.land_ones by lia. apply Z.mod_pos_bound. lia.
Qed.

Lemma nan_is_nan_pattern (nan : NaNBox) :
  nan_is_nan nan = true -> SF_of_bits (v nan) = S754_nan.
Proof.
  unfold nan_is_nan, double_ne. intros H.
  destruct (SF_of_bits (v nan)) as [s|s| |s m e] eqn:E; try reflexivity;
    exfalso; apply negb_true_iff in H;
    apply not_true_iff_false in H; apply H; apply SFeqb_refl_iff; discriminate.
Qed.

Lemma u64_of_double_nan (nan : NaNBox) :
  nan_is_nan nan = true -> u64_of_double (v nan) = Stuck ConversionRange.
Proof.
  intros H. unfold u64_of_double. now rewrite (nan_is_nan_pattern nan H).
Qed.

Lemma u64_of_double_nan_make_inf : u64_of_double nan_make_inf = Done EXP_MASK.
Proof. reflexivity. Qed.

Lemma low_32_bits (f : Z) : (to_i64 (to_u64 f)) mod 2 ^ 32 = f mod 2 ^ 32.
Proof.
  unfold to_i64, to_signed, to_u64, to_unsigned.
  rewrite Z.mod_mod by lia.
  assert (E : (f mod 2 ^ 64) mod 2 ^ 32 = f mod 2 ^ 32).
  { change (2 ^ 64) with (2 ^ 32 * 2 ^ 32).
    rewrite Z.rem_mul_r by lia.
    rewrite Z.mul_comm, Z.mod_add by lia. apply Z.mod_mod. lia. }
  destruct (f mod 2 ^ 64 <? 2 ^ (64 - 1)); [exact E|].
  change (2 ^ 64) with (2 ^ 32 * 2 ^ 32) at 2.
  replace (f mod 2 ^ 64 - 2 ^ 32 * 2 ^ 32)
    with (f mod 2 ^ 64 + (- 2 ^ 32) * 2 ^ 32) by lia.
  now rewrite Z.mod_add by lia.
Qed.

Lemma to_int_low_32 (f : Z) : to_int (to_i64 (to_u64 f)) = to_int f.
Proof. unfold to_int, to_signed. now rewrite low_32_bits. Qed.

Lemma all_byte_boxes_read :
  forallb byte_box_reads (map Z.of_nat (seq 0 256)) = true.
Proof. vm_compute. reflexivity. Qed.

Lemma small_i64_read_zero :
  forallb i64_reads_zero (map Z.of_nat (seq 0 513)) = true.
Proof. vm_compute. reflexivity. Qed.


Lemma below_in_seq (n : nat) (x : Z) :
  0 <= x < Z.of_nat n -> In x (map Z.of_nat (seq 0 n)).
Proof.
  intros H. apply in_map_iff. exists (Z.to_nat x). split; [lia|].
  apply in_seq. lia.
Qed.

End Accessors.

(** X5. [nan_is_i64], [nan_is_u64] and [nan_is_str] answer false on
    every value: they ask for a NaN, and on a NaN [nan_get_type]
    answers [TYPE_F64]. *)
Theorem boxed_predicates_always_false (nan : NaNBox) :
  nan_is_i64 nan = Done false /\
  nan_is_u64 nan = Done false /\
  nan_is_str nan = Done false.
Proof.
  unfold nan_is_i64, nan_is_u64, nan_is_str, nan_has_type, nan_get_type.
  destruct (nan_is_nan nan); repeat split; reflexivity.
Qed.

(** X6. Whenever [nan_get_type] returns, the number it returns is
    between 0 and 15; only 0 to 4 name a [Type]. *)
Theorem nan_get_type_range (nan : NaNBox) (t : Z) :
  nan_get_type nan = Done t -> 0 <= t <= 15.
Proof.
  unfold nan_get_type.
  destruct (nan_is_nan nan).
  - intros [= <-]. simpl. lia.
  - destruct (u64_of_double (v nan)) as [bits|c]; cbn [bind]; [|discriminate].
    intros [= <-]. pose proof (type_field_range bits). lia.
Qed.

Lemma nan_get_type_range_witness :
  nan_get_type (nan_from_f64 (double_of_u64 (9 * 2 ^ 48))) = Done 9 /\
  0 <= 9 <= 15.
Proof.
  split; [reflexivity|].
  exact (nan_get_type_range (nan_from_f64 (double_of_u64 (9 * 2 ^ 48))) 9 eq_refl).
Defined.

(** X7. Whenever [nan_get_value] returns, the magnitude of the result
    is below 2^48, whatever double the box holds. *)
Theorem nan_get_value_range (nan : NaNBox) (g : Z) :
  nan_get_value nan = Done g -> - 2 ^ 48 < g < 2 ^ 48.
Proof.
  unfold nan_get_value.
  destruct (u64_of_double (v nan)) as [bits|c]; cbn [bind]; [|discriminate].
  pose proof (payload_range bits) as Hp.
  rewrite (to_i64_small (Z.land bits VALUE_MASK)) by lia.
  rewrite to_i64_small by lia.
  destruct (negb _); intros [= <-]; lia.
Qed.

Lemma nan_get_value_range_witness :
  nan_get_value (nan_from_f64 (double_of_u64 (2 ^ 50 + 2 ^ 47))) = Done (2 ^ 47) /\
  - 2 ^ 48 < 2 ^ 47 < 2 ^ 48.
Proof.
  split; [reflexivity|].
  exact (nan_get_value_range
           (nan_from_f64 (double_of_u64 (2 ^ 50 + 2 ^ 47))) (2 ^ 47) eq_refl).
Defined.

(** X8. On a value that is a NaN every integer accessor is undefined:
    the conversion of the NaN to [uint64_t] has no result. *)
Theorem accessors_undefined_on_nan (nan : NaNBox) :
  nan_is_nan nan = true ->
  nan_get_value nan = Stuck ConversionRange /\
  nan_as_i64 nan = Stuck ConversionRange /\
  nan_as_u64 nan = Stuck ConversionRange /\
  nan_as_u8 nan = Stuck ConversionRange /\
  nan_as_usize nan = Stuck ConversionRange.
Proof.
  intros H.
  assert (E : nan_get_value nan = Stuck ConversionRange).
  { unfold nan_get_value. now rewrite (u64_of_double_nan nan H). }
  unfold nan_as_i64, nan_as_u64, nan_as_u8, nan_as_usize.
  rewrite E. repeat split; reflexivity.
Qed.

Lemma accessors_undefined_on_nan_witness :
  nan_get_value (nan_from_f64 (bits_of_SF S754_nan)) = Stuck ConversionRange.
Proof.
  exact (proj1 (accessors_undefined_on_nan
                  (nan_from_f64 (bits_of_SF S754_nan)) eq_refl)).
Defined.

(** X9. An integer whose low 32 bits are 0x80000000 cannot be boxed:
    [nan_set_value] takes [abs] of it as an [int], which is undefined on
    [INT_MIN]. *)
Theorem boxing_int_min_undefined (f : Z) :
  f mod 2 ^ 32 = 2 ^ 31 ->
  nan_from_i64 f = Stuck AbsOverflow /\ nan_from_u64 f = Stuck AbsOverflow.
Proof.
  intros H.
  assert (Hint : to_int (to_i64 (to_u64 f)) = - 2 ^ 31).
  { rewrite to_int_low_32. unfold to_int, to_signed. rewrite H. reflexivity. }
  assert (Hz : (to_i64 (to_u64 f) =? 0) = false).
  { apply Z.eqb_neq. intros E. rewrite E in Hint. discriminate Hint. }
  unfold nan_from_i64, nan_from_u64, nan_set_value.
  rewrite u64_of_double_nan_make_inf, Hint. split; reflexivity.
Qed.

Lemma boxing_int_min_undefined_witness :
  nan_from_i64 (2 ^ 31) = Stuck AbsOverflow /\
  nan_from_u64 (2 ^ 31) = Stuck AbsOverflow.
Proof. exact (boxing_int_min_undefined (2 ^ 31) eq_refl). Defined.

(** X10. For every byte, [nan_from_u8] returns a box that is no NaN,
    from which [nan_get_type] reads [TYPE_U8] and [nan_get_value]
    reads 0: the tag is kept, the byte is not. *)
Theorem byte_box_keeps_tag_only (b : Z) :
  0 <= b < 256 ->
  exists box,
    nan_from_u8 b = Done box /\ nan_is_f64 box = true /\
    nan_get_type box = Done (Type_to_Z TYPE_U8) /\
    nan_get_value box = Done 0.
Proof.
  intros Hb.
  pose proof (proj1 (forallb_forall _ _) all_byte_boxes_read b
                (below_in_seq 256 b Hb)) as Hc.
  unfold byte_box_reads in Hc.
  destruct (nan_from_u8 b) as [box|]; [|discriminate].
  exists box. split; [reflexivity|].
  destruct (nan_is_f64 box); [|discriminate].
  destruct (nan_get_type box) as [t|]; [|discriminate].
  destruct (nan_get_value box) as [g|];
    [|now rewrite andb_false_r in Hc].
  apply andb_true_iff in Hc. destruct Hc as [Ht Hg].
  apply andb_true_iff in Ht. destruct Ht as [_ Ht].
  apply Z.eqb_eq in Ht, Hg. subst. repeat split.
Qed.

Lemma byte_box_keeps_tag_only_witness :
  exists box,
    nan_from_u8 200 = Done box /\ nan_is_f64 box = true /\
    nan_get_type box = Done (Type_to_Z TYPE_U8) /\
    nan_get_value box = Done 0.
Proof.
  assert (H : 0 <= 200 < 256) by lia.
  exact (byte_box_keeps_tag_only 200 H).
Defined.

(** X11. Every integer from 0 to 512 reads back as 0 from its box: the
    low bits of the payload do not survive the conversion to double. *)
Theorem small_integers_read_zero (i : Z) :
  0 <= i <= 512 ->
  exists box, nan_from_i64 i = Done box /\ nan_as_i64 box = Done 0.
Proof.
  intros Hi.
  assert (Hin : 0 <= i < Z.of_nat 513) by lia.
  pose proof (proj1 (forallb_forall _ _) small_i64_read_zero i
                (below_in_seq 513 i Hin)) as Hc.
  unfold i64_reads_zero in Hc.
  destruct (nan_from_i64 i) as [box|]; [|discriminate].
  exists box. split; [reflexivity|].
  destruct (nan_as_i64 box) as [g|]; [|discriminate].
  apply Z.eqb_eq in Hc. now subst.
Qed.

Lemma small_integers_read_zero_witness :
  exists box, nan_from_i64 512 = Done box /\ nan_as_i64 box = Done 0.
Proof.
  assert (H : 0 <= 512 <= 512) by lia.
  exact (small_integers_read_zero 512 H).
Defined.



(** ** Codec: what the encoder leaves in [ret] *)

Section CodecWrites.

Lemma overwrite_0 (a0 b : Z) (a src : list Z) :
  overwrite (a0 :: a) 0 (b :: src) = b :: overwrite a 0 src.
Proof. reflexivity. Qed.

Lemma overwrite_S (a0 : Z) (a : list Z) (off : nat) (src : list Z) :
  overwrite (a0 :: a) (S off) src = a0 :: overwrite a off src.
Proof. reflexivity. Qed.

Lemma overwrite_nil (a : list Z) (off : nat) : overwrite a off [] = a.
Proof.
  unfold overwrite. cbn [List.length app].
  now rewrite Nat.add_0_r, firstn_skipn.
Qed.

(** A later write at the same place that is at least as long leaves
    nothing of the earlier one. *)
Lemma overwrite_overwrite (a : list Z) (off : nat) (s1 s2 : list Z) :
  (List.length s1 <= List.length s2)%nat ->
  (off + List.length s1 <= List.length a)%nat ->
  overwrite (overwrite a off s1) off s2 = overwrite a off s2.
Proof.
  intros H12 Hfit. unfold overwrite.
  assert (Hf : List.length (firstn off a) = off)
    by (rewrite length_firstn; lia).
  rewrite firstn_app, Hf, firstn_all2, Nat.sub_diag by lia.
  cbn [firstn]. rewrite app_nil_r. do 2 f_equal.
  rewrite skipn_app, Hf, skipn_all2 by lia. cbn [app].
  rewrite skipn_app, skipn_all2 by lia. cbn [app].
  rewrite skipn_skipn. f_equal. lia.
Qed.

Lemma store_length (a a' : list Z) (i : nat) (b : Z) :
  store a i b = Done a' -> List.length a' = List.length a.
Proof.
  intros H.
  destruct (Nat.lt_ge_cases i (List.length a)) as [Hin|Hout].
  - rewrite store_done in H by exact Hin. injection H as <-.
    apply overwrite_length. simpl. lia.
  - rewrite store_stuck in H by exact Hout. discriminate H.
Qed.

Lemma write_bytes_length (src a a' : list Z) (off : nat) :
  write_bytes a off src = Done a' -> List.length a' = List.length a.
Proof.
  revert a off. induction src as [|b src IH]; intros a off H; simpl in H.
  - now injection H as <-.
  - destruct (store a off b) as [a1|] eqn:E; cbn [bind] in H; [|discriminate].
    rewrite (IH _ _ H). now apply store_length in E.
Qed.

Lemma memcpy_to_length (a a' : list Z) (off : nat) (src : list Z) (n : nat) :
  memcpy_to a off src n = Done a' -> List.length a' = List.length a.
Proof.
  unfold memcpy_to. destruct (List.length src <? n)%nat; [discriminate|].
  apply write_bytes_length.
Qed.

Lemma inst_value_to_bytes_length (x : Inst_Value) (st st' : state) (p : byte_ptr) :
  inst_value_to_bytes x st = Done (p, st') ->
  List.length (ret st') = List.length (ret st).
Proof.
  unfold inst_value_to_bytes.
  destruct (store (ret st) 1 _) as [a|] eqn:E1; cbn [bind]; [|discriminate].
  apply store_length in E1.
  destruct x as [nan| |i64|u64|f64|[s|]]; cbn [strlen bind];
    try (match goal with
         | |- context [memcpy_to ?a ?o ?s ?n] =>
             destruct (memcpy_to a o s n) as [a2|] eqn:E2; cbn [bind];
             [|discriminate]
         end;
         apply memcpy_to_length in E2; intros [= <- <-]; cbn [ret set_ret];
         congruence).
  - intros [= <- <-]. exact E1.
  - destruct (INST_STR_CAP - 2 <? c_strlen (chars s))%nat.
    + intros [= <- <-]. exact E1.
    + destruct (store a 2 _) as [a2|] eqn:E2; cbn [bind]; [|discriminate].
      apply store_length in E2.
      destruct (memcpy_to a2 3 _ _) as [a3|] eqn:E3; cbn [bind];
        [|discriminate].
      apply memcpy_to_length in E3. intros [= <- <-]. cbn [ret set_ret].
      congruence.
  - discriminate.
Qed.

(** [inst_to_bytes] puts the opcode in front of what the operand
    encoder wrote. *)
Lemma inst_to_bytes_done (ty : Inst_Type) (x : Inst_Value) (st st1 : state) :
  inst_value_to_bytes x st = Done (RET, st1) ->
  inst_to_bytes (inst_new ty x) st
  = Done (RET, set_ret st1
                 (overwrite (ret st) 0 (inst_type_to_bytes ty :: encoding x))).
Proof.
  intros H. unfold inst_to_bytes, inst_new. cbn [inst_v inst_ty].
  rewrite H. cbn [bind].
  pose proof (inst_value_to_bytes_in_bounds _ _ _ H) as H1.
  apply inst_value_to_bytes_ret in H. destruct H as [Hr _]. rewrite Hr.
  destruct (ret st) as [|a0 a]; [simpl in H1; lia|].
  rewrite overwrite_S. reflexivity.
Qed.

Lemma encode_fixed_done (x : Inst_Value) (st : state) :
  inst_value_ty x <> INST_V_TYPE_STR ->
  (10 <= List.length (ret st))%nat ->
  inst_value_to_bytes x st
  = Done (RET, set_ret st (overwrite (ret st) 1 (encoding x))).
Proof.
  intros Hty Hlen. unfold inst_value_to_bytes.
  rewrite store_done by lia. cbn [bind].
  destruct x as [nan| |i64|u64|f64|str]; cbn [inst_value_ty encoding];
    try (rewrite memcpy_to_8, write_bytes_done
           by (rewrite overwrite_length, le_bytes_length; simpl; lia);
         cbn [bind]; rewrite overwrite_cons by lia; reflexivity).
  - reflexivity.
  - now contradiction Hty.
Qed.

Lemma encode_string_done (s : string) (st : state) :
  (c_strlen (chars s) <= 12)%nat ->
  (3 + c_strlen (chars s) <= List.length (ret st))%nat ->
  inst_value_to_bytes (inst_value_new_str (CStr s)) st
  = Done (RET, set_ret st
                 (overwrite (ret st) 1 (encoding (inst_value_new_str (CStr s))))).
Proof.
  intros H12 Hlen. pose proof (c_strlen_le (chars s)) as Hle.
  unfold inst_value_to_bytes, inst_value_new_str.
  rewrite store_done by lia. cbn [bind strlen inst_value_ty encoding].
  replace (INST_STR_CAP - 2 <? c_strlen (chars s))%nat with false
    by (symmetry; apply Nat.ltb_ge; unfold INST_STR_CAP; lia).
  rewrite store_done by (rewrite overwrite_length; simpl; lia). cbn [bind].
  rewrite memcpy_to_str, write_bytes_done; cbn [bind].
  - rewrite overwrite_cons by (rewrite overwrite_length; simpl; lia).
    rewrite overwrite_cons by lia. reflexivity.
  - rewrite !overwrite_length by (try rewrite overwrite_length; simpl; lia).
    rewrite length_firstn. lia.
Qed.

End CodecWrites.

Section CodecFacts.

Lemma encode_fits (x : Inst_Value) (st st' : state) :
  inst_value_to_bytes x st = Done (RET, st') ->
  (1 + List.length (encoding x) <= List.length (ret st))%nat.
Proof.
  intros H.
  pose proof (inst_value_to_bytes_in_bounds _ _ _ H) as H1.
  pose proof (inst_value_to_bytes_length _ _ _ _ H) as Hl.
  apply inst_value_to_bytes_ret in H. destruct H as [Hr _].
  rewrite Hr in Hl. unfold overwrite in Hl.
  rewrite !length_app, length_firstn, length_skipn in Hl. lia.
Qed.

Lemma decode_tag_cases (vty : Z) :
  vty = 0 \/ vty = 1 \/ vty = 2 \/ vty = 3 \/ vty = 4 \/ vty = 5
  \/ (vty < 0 \/ 5 < vty).
Proof. lia. Qed.

Lemma decode_payload_stuck (ty vty : Z) (rest : list Z) (out : Inst) :
  vty = 0 \/ vty = 2 \/ vty = 3 \/ vty = 4 ->
  inst_value_from_bytes (ty :: vty :: rest) out
  = Stuck (if (List.length rest <? 10)%nat then OutOfBounds else ObjectOverflow).
Proof.
  intros H.
  assert (E : memcpy_from 8 (ty :: vty :: rest) 2 (2 + 8)
              = Stuck (if (List.length rest <? 10)%nat
                       then OutOfBounds else ObjectOverflow)).
  { unfold memcpy_from. cbn [List.length].
    destruct (Nat.ltb_spec (List.length rest) 10) as [Hs|Hl].
    - now replace (S (S (List.length rest)) <? 2 + (2 + 8))%nat with true
        by (symmetry; apply Nat.ltb_lt; lia).
    - now replace (S (S (List.length rest)) <? 2 + (2 + 8))%nat with false
        by (symmetry; apply Nat.ltb_ge; lia). }
  unfold inst_value_from_bytes.
  cbn [load nth_error bind Inst_Value_Type_to_Z].
  destruct H as [-> | [-> | [-> | ->]]]; cbn [Z.eqb Pos.eqb];
    rewrite E; reflexivity.
Qed.

Lemma decode_unknown (ty vty : Z) (rest : list Z) (out : Inst) :
  vty < 0 \/ 5 < vty ->
  inst_value_from_bytes (ty :: vty :: rest) out = Done (1, out).
Proof.
  intros H. unfold inst_value_from_bytes.
  cbn [load nth_error bind Inst_Value_Type_to_Z].
  repeat match goal with
         | |- context [vty =? ?k] =>
             replace (vty =? k) with false by (symmetry; apply Z.eqb_neq; lia)
         end.
  reflexivity.
Qed.

Lemma decode_str (ty len : Z) (rest : list Z) (out : Inst) :
  inst_value_from_bytes (ty :: 5 :: len :: rest) out
  = if (List.length rest <? 3 + Z.to_nat len)%nat then Stuck OutOfBounds
    else if (13 <? Z.to_nat len)%nat then Stuck ObjectOverflow
    else Done (0, inst_new ty (inst_value_new_str Expired)).
Proof.
  unfold inst_value_from_bytes, memcpy_from.
  cbn [load nth_error bind Inst_Value_Type_to_Z Z.eqb Pos.eqb List.length].
  destruct (Nat.ltb_spec (List.length rest) (3 + Z.to_nat len)) as [Hs|Hl].
  - now replace (S (S (S (List.length rest))) <? 3 + (3 + Z.to_nat len))%nat
      with true by (symmetry; apply Nat.ltb_lt; lia).
  - replace (S (S (S (List.length rest))) <? 3 + (3 + Z.to_nat len))%nat
      with false by (symmetry; apply Nat.ltb_ge; lia).
    destruct (Nat.ltb_spec 13 (Z.to_nat len)) as [Hb|Hb].
    + now replace (16 <? 3 + Z.to_nat len)%nat with true
        by (symmetry; apply Nat.ltb_lt; lia).
    + now replace (16 <? 3 + Z.to_nat len)%nat with false
        by (symmetry; apply Nat.ltb_ge; lia).
Qed.

Lemma encode_short_string_succeeds_aux (s : string) (st : state) :
  (c_strlen (chars s) <= 11)%nat ->
  List.length (ret st) = 14%nat ->
  inst_value_to_bytes (inst_value_new_str (CStr s)) st
  = Done (RET, set_ret st
                 (overwrite (ret st) 1 (encoding (inst_value_new_str (CStr s))))).
Proof. intros H11 Hlen. apply encode_string_done; lia. Qed.

End CodecFacts.



(** X14. [inst_to_bytes] on a string operand of more than 12
    characters does not return: the operand encoder returns NULL and
    the [assert] aborts the program. *)
Theorem inst_to_bytes_aborts_on_long_string
  (ty : Inst_Type) (s : string) (st : state) :
  (1 < List.length (ret st))%nat ->
  (12 < c_strlen (chars s))%nat ->
  inst_to_bytes (inst_new ty (inst_value_new_str (CStr s))) st
  = Stuck AssertFailed.
Proof.
  intros H1 H. unfold inst_to_bytes, inst_new. cbn [inst_v].
  now rewrite (inst_value_to_bytes_refused s st H1 H).
Qed.

Lemma inst_to_bytes_aborts_on_long_string_witness :
  inst_to_bytes (inst_new Op.native (inst_value_new_str (CStr "print_newline")))
                initial_state
  = Stuck AssertFailed.
Proof.
  assert (H1 : (1 < List.length (ret initial_state))%nat) by (simpl; lia).
  assert (H : (12 < c_strlen (chars "print_newline"))%nat) by (simpl; lia).
  exact (inst_to_bytes_aborts_on_long_string Op.native "print_newline"
           initial_state H1 H).
Defined.

(** X15. On the 14-byte array every operand that is not a string is
    encoded: the call returns the array with tag and payload written
    from byte 1 on, byte 0 and the bytes after the payload untouched,
    and prints nothing. *)
Theorem encode_fixed_size_succeeds (x : Inst_Value) (st : state) :
  inst_value_ty x <> INST_V_TYPE_STR ->
  List.length (ret st) = INST_STR_CAP ->
  inst_value_to_bytes x st
  = Done (RET, mkState (overwrite (ret st) 1 (encoding x)) (stderr st)).
Proof.
  intros Hty Hlen. apply encode_fixed_done; [exact Hty|].
  rewrite Hlen. unfold INST_STR_CAP. lia.
Qed.

Lemma encode_fixed_size_succeeds_witness :
  inst_value_to_bytes (inst_value_new_i64 (-2)) initial_state
  = Done (RET, mkState [0; 2; 254; 255; 255; 255; 255; 255; 255; 255; 0; 0; 0; 0] []).
Proof.
  assert (Hty : inst_value_ty (inst_value_new_i64 (-2)) <> INST_V_TYPE_STR)
    by discriminate.
  exact (encode_fixed_size_succeeds (inst_value_new_i64 (-2)) initial_state
           Hty eq_refl).
Defined.

(** X16. On the 14-byte array a string of at most 11 characters is
    encoded as tag 5, its length, and its characters without the
    terminator. *)
Theorem encode_short_string_succeeds (s : string) (st : state) :
  (c_strlen (chars s) <= 11)%nat ->
  List.length (ret st) = INST_STR_CAP ->
  inst_value_to_bytes (inst_value_new_str (CStr s)) st
  = Done (RET,
          mkState (overwrite (ret st) 1
                     (5 :: Z.of_nat (c_strlen (chars s))
                        :: firstn (c_strlen (chars s)) (chars s)))
                  (stderr st)).
Proof.
  intros H11 Hlen. unfold INST_STR_CAP in Hlen.
  rewrite encode_string_done by lia.
  assert (E : to_u8 (Z.of_nat (c_strlen (chars s)))
              = Z.of_nat (c_strlen (chars s))).
  { unfold to_u8, to_unsigned. apply Z.mod_small.
    change (2 ^ 8) with 256. lia. }
  unfold set_ret, inst_value_new_str.
  unfold encoding. cbv zeta. rewrite E. reflexivity.
Qed.

Lemma encode_short_string_succeeds_witness :
  inst_value_to_bytes (inst_value_new_str (CStr "loop")) initial_state
  = Done (RET, mkState [0; 5; 4; 108; 111; 111; 112; 0; 0; 0; 0; 0; 0; 0] []).
Proof.
  assert (H : (c_strlen (chars "loop") <= 11)%nat) by (simpl; lia).
  exact (encode_short_string_succeeds "loop" initial_state H eq_refl).
Defined.

(** X17. Whenever the encoder returns, with the array or with NULL, the
    static array has the length it had before the call. *)
Theorem encode_keeps_length (x : Inst_Value) (ty : Inst_Type)
  (st st' : state) (p : byte_ptr) :
  inst_value_to_bytes x st = Done (p, st') \/
  inst_to_bytes (inst_new ty x) st = Done (p, st') ->
  List.length (ret st') = List.length (ret st).
Proof.
  intros [H|H].
  - exact (inst_value_to_bytes_length x st st' p H).
  - unfold inst_to_bytes, inst_new in H. cbn [inst_v inst_ty] in H.
    destruct (inst_value_to_bytes x st) as [[q st1]|c] eqn:E;
      cbn [bind] in H; [|discriminate H].
    apply inst_value_to_bytes_length in E.
    destruct q; [discriminate H|].
    destruct (store (ret st1) 0 _) as [a|] eqn:Es; cbn [bind] in H;
      [|discriminate H].
    apply store_length in Es. injection H as _ <-. cbn [ret set_ret].
    congruence.
Qed.

Lemma encode_keeps_length_witness :
  List.length [0; 5; 0; 0; 0; 0; 0; 0; 0; 0; 0; 0; 0; 0]
  = List.length (ret initial_state).
Proof.
  exact (encode_keeps_length
           (inst_value_new_str (CStr "print_newline")) Op.native initial_state
           (mkState [0; 5; 0; 0; 0; 0; 0; 0; 0; 0; 0; 0; 0; 0] [too_long]) NULL
           (or_introl eq_refl)).
Defined.

(** X18. The encoder does not clear the array: after an Int64 operand
    has been encoded, encoding an operand with no payload succeeds and
    leaves the eight payload bytes of the Int64 behind the new tag. *)
Theorem stale_payload_survives (i : Z) (st st1 : state) :
  inst_value_to_bytes (inst_value_new_i64 i) st = Done (RET, st1) ->
  exists st2,
    inst_value_to_bytes inst_value_new_void st1 = Done (RET, st2) /\
    nth_error (ret st2) 1 = Some (Inst_Value_Type_to_Z INST_V_TYPE_NONE) /\
    firstn 8 (skipn 2 (ret st2)) = le_bytes 8 (to_u64 i).
Proof.
  intros H.
  pose proof (encode_fits _ _ _ H) as Hfit.
  pose proof (inst_value_to_bytes_length _ _ _ _ H) as Hl.
  apply inst_value_to_bytes_ret in H. destruct H as [Hr _].
  unfold inst_value_new_i64, encoding in Hfit, Hr.
  cbn [List.length inst_value_ty] in Hfit. rewrite le_bytes_length in Hfit.
  eexists. split.
  - apply encode_fixed_done; [discriminate | lia].
  - cbn [ret set_ret]. rewrite Hr.
    destruct (ret st) as [|a0 [|a1 a]]; try (simpl in Hfit; lia).
    unfold encoding, inst_value_new_void. cbn [inst_value_ty].
    rewrite !overwrite_S, !overwrite_0, overwrite_nil.
    split; [reflexivity|].
    cbn [skipn]. unfold overwrite.
    change (firstn 0 a) with (@nil Z). rewrite app_nil_l.
    rewrite firstn_app, le_bytes_length, Nat.sub_diag, firstn_all2
      by (rewrite le_bytes_length; lia).
    cbn [firstn]. apply app_nil_r.
Qed.

Lemma stale_payload_survives_witness :
  exists st2,
    inst_value_to_bytes inst_value_new_void
      (mkState [0; 2; 7; 1; 0; 0; 0; 0; 0; 0; 0; 0; 0; 0] []) = Done (RET, st2) /\
    nth_error (ret st2) 1 = Some (Inst_Value_Type_to_Z INST_V_TYPE_NONE) /\
    firstn 8 (skipn 2 (ret st2)) = le_bytes 8 (to_u64 263).
Proof.
  exact (stale_payload_survives 263 initial_state
           (mkState [0; 2; 7; 1; 0; 0; 0; 0; 0; 0; 0; 0; 0; 0] []) eq_refl).
Defined.

(** X19. When two operands are encoded in turn and the second encoding
    is at least as long as the first, nothing of the first is left:
    the array is what encoding the second alone would have made it. *)
Theorem later_encoding_replaces_earlier (x y : Inst_Value) (st st1 st2 : state) :
  inst_value_to_bytes x st = Done (RET, st1) ->
  inst_value_to_bytes y st1 = Done (RET, st2) ->
  (List.length (encoding x) <= List.length (encoding y))%nat ->
  ret st2 = overwrite (ret st) 1 (encoding y).
Proof.
  intros Hx Hy Hle.
  pose proof (encode_fits _ _ _ Hx) as Hfit.
  apply inst_value_to_bytes_ret in Hx. destruct Hx as [Hx _].
  apply inst_value_to_bytes_ret in Hy. destruct Hy as [Hy _].
  rewrite Hy, Hx. now apply overwrite_overwrite.
Qed.

Lemma later_encoding_replaces_earlier_witness :
  [0; 4; 9; 0; 0; 0; 0; 0; 0; 0; 0; 0; 0; 0]
  = overwrite (repeat 0 14) 1 (encoding (inst_value_new_f64 9)).
Proof.
  assert (H : (List.length (encoding (inst_value_new_i64 (-1)%Z))
               <= List.length (encoding (inst_value_new_f64 9%Z)))%nat)
    by (simpl; lia).
  exact (later_encoding_replaces_earlier
           (inst_value_new_i64 (-1)) (inst_value_new_f64 9) initial_state
           (mkState [0; 2; 255; 255; 255; 255; 255; 255; 255; 255; 0; 0; 0; 0] [])
           (mkState [0; 4; 9; 0; 0; 0; 0; 0; 0; 0; 0; 0; 0; 0] [])
           eq_refl eq_refl H).
Defined.

(** ** Codec: what the decoder does with a record *)

(** X20. On a record whose operand tag is none of 0..5 the decoder
    returns 1 and leaves the output instruction untouched, whatever
    the opcode byte and whatever follows the tag. *)
Theorem decode_unknown_tag (ty vty : Z) (rest : list Z) (out : Inst) :
  vty < 0 \/ 5 < vty ->
  inst_value_from_bytes (ty :: vty :: rest) out = Done (1, out).
Proof. apply decode_unknown. Qed.

Lemma decode_unknown_tag_witness :
  inst_value_from_bytes [Op.push; 6; 1; 2; 3] (inst_new Op.halt inst_value_new_void)
  = Done (1, inst_new Op.halt inst_value_new_void).
Proof.
  assert (H : 6 < 0 \/ 5 < 6) by lia.
  exact (decode_unknown_tag Op.push 6 [1; 2; 3]
           (inst_new Op.halt inst_value_new_void) H).
Defined.

(** X21. On a record with operand tag 0, 2, 3 or 4 the payload copy of
    the decoder is an out-of-bounds access, whatever the buffer holds:
    it asks for 10 bytes from byte 2, which reads past a buffer of
    fewer than 12 bytes and otherwise writes past the 8-byte object it
    copies into. The behaviour of the call is undefined from there. *)
Theorem decode_payload_copy_out_of_bounds
  (ty vty : Z) (rest : list Z) (out : Inst) :
  vty = 0 \/ vty = 2 \/ vty = 3 \/ vty = 4 ->
  inst_value_from_bytes (ty :: vty :: rest) out
  = Stuck (if (List.length rest <? 10)%nat then OutOfBounds else ObjectOverflow).
Proof. apply decode_payload_stuck. Qed.

Lemma decode_payload_copy_out_of_bounds_witness :
  inst_value_from_bytes [0; 3; 1; 0; 0; 0; 0; 0; 0; 0; 0; 0; 0; 0]
    (inst_new Op.halt inst_value_new_void)
  = Stuck ObjectOverflow.
Proof.
  assert (H : 3 = 0 \/ 3 = 2 \/ 3 = 3 \/ 3 = 4) by lia.
  exact (decode_payload_copy_out_of_bounds 0 3 [1; 0; 0; 0; 0; 0; 0; 0; 0; 0; 0; 0]
           (inst_new Op.halt inst_value_new_void) H).
Defined.

(** X22. On a string record with length byte [len] the decoder copies
    [3 + len] bytes from byte 3: it reads past a buffer of fewer than
    [6 + len] bytes, overflows its 16-byte array when [len] exceeds 13,
    and otherwise returns 0 with the opcode byte and a string operand
    that points to the array of the call that has returned. *)
Theorem decode_string_record (ty len : Z) (rest : list Z) (out : Inst) :
  inst_value_from_bytes (ty :: 5 :: len :: rest) out
  = if (List.length rest <? 3 + Z.to_nat len)%nat then Stuck OutOfBounds
    else if (13 <? Z.to_nat len)%nat then Stuck ObjectOverflow
    else Done (0, inst_new ty (inst_value_new_str Expired)).
Proof. apply decode_str. Qed.

(** X23. A call of the decoder that makes no out-of-bounds access (no
    read past the buffer, no write past the object a copy goes into)
    leaves as output either the instruction it was given, returning 0
    or 1, or an instruction with a string operand whose pointer has
    expired, returning 0. A call that hands out a numeric or boxed
    operand has made such an access. *)
Theorem decode_in_bounds_result_shapes (bytes : list Z) (out out' : Inst) (rc : Z) :
  inst_value_from_bytes bytes out = Done (rc, out') ->
  (out' = out /\ (rc = 0 \/ rc = 1)) \/
  (rc = 0 /\ exists ty,
      nth_error bytes 0 = Some ty /\
      out' = inst_new ty (inst_value_new_str Expired)).
Proof.
  destruct bytes as [|ty [|vty rest]]; try discriminate.
  destruct (decode_tag_cases vty) as [E|[E|[E|[E|[E|[E|E]]]]]].
  - rewrite decode_payload_stuck by lia. discriminate.
  - subst vty. intros [= <- <-]. left. split; [reflexivity | now left].
  - rewrite decode_payload_stuck by lia. discriminate.
  - rewrite decode_payload_stuck by lia. discriminate.
  - rewrite decode_payload_stuck by lia. discriminate.
  - subst vty. destruct rest as [|len rest']; [discriminate|].
    rewrite decode_str.
    destruct (List.length rest' <? 3 + Z.to_nat len)%nat; [discriminate|].
    destruct (13 <? Z.to_nat len)%nat; [discriminate|].
    intros [= <- <-]. right. split; [reflexivity|].
    exists ty. split; reflexivity.
  - rewrite decode_unknown by exact E.
    intros [= <- <-]. left. split; [reflexivity | now right].
Qed.

Lemma decode_in_bounds_result_shapes_witness :
  (inst_new Op.label (inst_value_new_str Expired) = inst_new Op.halt inst_value_new_void
   /\ (0 = 0 \/ 0 = 1)) \/
  (0 = 0 /\ exists ty,
      nth_error [Op.label; 5; 2; 104; 105; 0; 0; 0] 0 = Some ty /\
      inst_new Op.label (inst_value_new_str Expired)
      = inst_new ty (inst_value_new_str Expired)).
Proof.
  exact (decode_in_bounds_result_shapes [Op.label; 5; 2; 104; 105; 0; 0; 0]
           (inst_new Op.halt inst_value_new_void)
           (inst_new Op.label (inst_value_new_str Expired)) 0 eq_refl).
Defined.

(** X24. Encoding a string instruction in the 14-byte array and
    decoding the array: with at most 8 characters the decoder returns
    0 with the opcode byte and an expired string pointer; with 9 to 11
    characters its copy of [3 + len] bytes reads past the array. *)
Theorem decode_encoded_string
  (ty : Inst_Type) (s : string) (out : Inst) (st : state) :
  List.length (ret st) = INST_STR_CAP ->
  (c_strlen (chars s) <= 11)%nat ->
  decode_encoded (inst_new ty (inst_value_new_str (CStr s))) out st
  = if (c_strlen (chars s) <=? 8)%nat
    then Done (0, inst_new (to_u8 ty) (inst_value_new_str Expired))
    else Stuck OutOfBounds.
Proof.
  intros Hlen H11. unfold INST_STR_CAP in Hlen.
  pose proof (encode_short_string_succeeds_aux s st H11 Hlen) as He.
  unfold decode_encoded.
  rewrite (inst_to_bytes_done ty _ st _ He). cbn [bind deref ret set_ret].
  assert (Hl : List.length
                 (overwrite (ret st) 0
                    (inst_type_to_bytes ty
                       :: encoding (inst_value_new_str (CStr s)))) = 14%nat).
  { rewrite overwrite_length; [exact Hlen|].
    unfold encoding, inst_value_new_str. cbv zeta.
    cbn [List.length]. rewrite length_firstn.
    pose proof (c_strlen_le (chars s)). lia. }
  revert Hl.
  destruct (ret st) as [|a0 [|a1 [|a2 a]]]; try (simpl in Hlen; lia).
  unfold encoding, inst_value_new_str. cbv zeta. cbn [inst_value_ty].
  rewrite !overwrite_0.
  replace (to_u8 (Z.of_nat (c_strlen (chars s))))
    with (Z.of_nat (c_strlen (chars s)))
    by (symmetry; apply Z.mod_small; change (2 ^ 8) with 256; lia).
  change (to_u8 (Inst_Value_Type_to_Z INST_V_TYPE_STR)) with 5.
  intros Hl. unfold inst_from_bytes. rewrite decode_str, Nat2Z.id.
  cbn [List.length] in Hl.
  destruct (Nat.leb_spec (c_strlen (chars s)) 8) as [H8|H8].
  - replace (List.length _ <? 3 + c_strlen (chars s))%nat with false
      by (symmetry; apply Nat.ltb_ge; lia).
    now replace (13 <? c_strlen (chars s))%nat with false
      by (symmetry; apply Nat.ltb_ge; lia).
  - now replace (List.length _ <? 3 + c_strlen (chars s))%nat with true
      by (symmetry; apply Nat.ltb_lt; lia).
Qed.

Lemma decode_encoded_string_witness :
  decode_encoded (inst_new Op.jmp (inst_value_new_str (CStr "main_loop")))
                 (inst_new Op.halt inst_value_new_void) initial_state
  = Stuck OutOfBounds.
Proof.
  assert (H : (c_strlen (chars "main_loop") <= 11)%nat) by (simpl; lia).
  exact (decode_encoded_string Op.jmp "main_loop"
           (inst_new Op.halt inst_value_new_void) initial_state eq_refl H).
Defined.

(** ** Conversions between [uint64_t] and [double] *)

(** [(double) u] for an integer of more than 53 bits, followed through
    [binary_normalize]: the mantissa is shifted right once, rounded,
    and shifted once more when the rounding carried. *)

Section Conversions.

Lemma digits2_pos_size (p : positive) : digits2_pos p = Pos.size p.
Proof. induction p; simpl; congruence. Qed.

Lemma Zdigits2_log2 (p : positive) : Zdigits2 (Zpos p) = Z.log2 (Zpos p) + 1.
Proof.
  unfold Zdigits2. rewrite digits2_pos_size.
  destruct p; simpl; try rewrite Pos2Z.inj_succ; lia.
Qed.

Lemma iter_pos_nat {A : Type} (f : A -> A) (n : positive) (x : A) :
  SpecFloat.iter_pos f n x = Nat.iter (Pos.to_nat n) f x.
Proof.
  revert x. induction n as [n IH|n IH|]; intros x; simpl SpecFloat.iter_pos.
  - rewrite !IH, Pos2Nat.inj_xI.
    rewrite <- Nat.iter_add, <- Nat.iter_succ_r. f_equal. lia.
  - rewrite !IH, Pos2Nat.inj_xO. rewrite <- Nat.iter_add. f_equal. lia.
  - reflexivity.
Qed.

Lemma shr_1_m (r : shr_record) :
  0 <= shr_m r -> shr_m (shr_1 r) = shr_m r / 2.
Proof.
  destruct r as [m b s]. cbn [shr_m]. intros Hm.
  rewrite <- Z.div2_div.
  destruct m as [|[p|p|]|p]; try reflexivity. lia.
Qed.

Lemma iter_shr_1_m (k : nat) (r : shr_record) :
  0 <= shr_m r -> shr_m (Nat.iter k shr_1 r) = shr_m r / 2 ^ Z.of_nat k.
Proof.
  intros Hm. induction k as [|k IH].
  - simpl. now rewrite Z.div_1_r.
  - cbn [Nat.iter nat_rect]. change (nat_rect _ r (fun _ => shr_1) k) with (Nat.iter k shr_1 r).
    rewrite shr_1_m, IH.
    + rewrite Nat2Z.inj_succ, Z.pow_succ_r, Z.div_div by lia. f_equal. lia.
    + rewrite IH. apply Z.div_pos; lia.
Qed.

Lemma shr_1_exact (c : Z) :
  0 <= c -> shr_1 (Build_shr_record (2 * c) false false) = Build_shr_record c false false.
Proof. intros _. destruct c as [|p|p]; reflexivity. Qed.

Lemma iter_shr_1_exact (k : nat) (c : Z) :
  0 <= c ->
  Nat.iter k shr_1 (Build_shr_record (c * 2 ^ Z.of_nat k) false false)
  = Build_shr_record c false false.
Proof.
  intros Hc. revert c Hc. induction k as [|k IH]; intros c Hc.
  - simpl. now rewrite Z.mul_1_r.
  - rewrite Nat.iter_succ_r.
    replace (c * 2 ^ Z.of_nat (S k)) with (2 * (c * 2 ^ Z.of_nat k))
      by (rewrite Nat2Z.inj_succ, Z.pow_succ_r by lia; lia).
    rewrite shr_1_exact by (apply Z.mul_nonneg_nonneg; lia).
    now apply IH.
Qed.

Lemma fexp_normal (d : Z) : -1021 <= d -> fexp prec emax d = d - 53.
Proof. intros H. unfold fexp, emin, prec, emax. lia. Qed.

Lemma shr_fexp_eq (m : positive) (e : Z) (l : location) :
  -1021 <= Z.log2 (Zpos m) + 1 + e ->
  shr_fexp prec emax (Zpos m) e l
  = if 0 <? Z.log2 (Zpos m) - 52
    then (Nat.iter (Z.to_nat (Z.log2 (Zpos m) - 52)) shr_1
            (shr_record_of_loc (Zpos m) l), e + (Z.log2 (Zpos m) - 52))
    else (shr_record_of_loc (Zpos m) l, e).
Proof.
  intros H. unfold shr_fexp. rewrite Zdigits2_log2, fexp_normal by exact H.
  replace (Z.log2 (Zpos m) + 1 + e - 53 - e) with (Z.log2 (Zpos m) - 52) by lia.
  unfold shr. destruct (Z.log2 (Zpos m) - 52) as [|k|k] eqn:E.
  - reflexivity.
  - rewrite iter_pos_nat. reflexivity.
  - reflexivity.
Qed.

Lemma round_cases (q : Z) (l : location) :
  round_nearest_even q l = q \/ round_nearest_even q l = q + 1.
Proof.
  unfold round_nearest_even.
  destruct l as [|[| |]]; try (destruct (Z.even q)); auto.
Qed.

Lemma log2_52 (m : Z) : 2 ^ 52 <= m < 2 ^ 53 -> Z.log2 m = 52.
Proof. intros H. apply Z.log2_unique; lia. Qed.

(** Second pass and final test of [binary_round_aux] on a mantissa that
    the first pass and the rounding left between 2^52 and 2^53. *)
Lemma round_tail (m1 n : Z) :
  2 ^ 52 <= m1 <= 2 ^ 53 -> 0 <= n <= 11 ->
  exists m e,
    (let '(mrs'', e'') := shr_fexp prec emax m1 n loc_Exact in
     match shr_m mrs'' with
     | Z0 => S754_zero false
     | Zpos m => if Z.leb e'' (Z.sub emax prec) then S754_finite false m e''
                 else S754_infinity false
     | _ => S754_nan
     end) = S754_finite false m e
    /\ 2 ^ 52 <= Zpos m < 2 ^ 53 /\ n <= e <= n + 1
    /\ Zpos m * 2 ^ e = m1 * 2 ^ n.
Proof.
  intros Hm Hn.
  destruct m1 as [|pm|pm]; try lia.
  destruct (Z.eq_dec (Zpos pm) (2 ^ 53)) as [E|NE].
  - assert (Hl : Z.log2 (Zpos pm) = 53) by (rewrite E; reflexivity).
    rewrite shr_fexp_eq by lia. rewrite Hl.
    change (0 <? 53 - 52) with true. cbv iota.
    change (Z.to_nat (53 - 52)) with 1%nat. cbn [Nat.iter nat_rect].
    cbn [shr_record_of_loc]. rewrite E.
    change (shr_1 {| shr_m := 2 ^ 53; shr_r := false; shr_s := false |})
      with {| shr_m := 2 ^ 52; shr_r := false; shr_s := false |}.
    cbn [shr_m]. change (2 ^ 52) with (Zpos (Pos.pow 2 52)) at 1. cbv iota.
    exists (Pos.pow 2 52), (n + (53 - 52)).
    replace (n + (53 - 52) <=? emax - prec) with true
      by (symmetry; apply Z.leb_le; unfold emax, prec; lia).
    split; [reflexivity|].
    change (Zpos (Pos.pow 2 52)) with (2 ^ 52).
    split; [lia|]. split; [lia|].
    replace (n + (53 - 52)) with (n + 1) by lia.
    rewrite Z.pow_add_r by lia. change (2 ^ 53) with (2 ^ 52 * 2). lia.
  - assert (Hl : Z.log2 (Zpos pm) = 52) by (apply log2_52; lia).
    rewrite shr_fexp_eq by lia. rewrite Hl.
    change (0 <? 52 - 52) with false. cbv iota.
    cbn [shr_record_of_loc shr_m].
    exists pm, n.
    replace (n <=? emax - prec) with true
      by (symmetry; apply Z.leb_le; unfold emax, prec; lia).
    split; [reflexivity|]. split; [lia|]. split; [lia|]. reflexivity.
Qed.

Lemma log2_range (u : Z) :
  2 ^ 53 <= u < 2 ^ 64 -> 53 <= Z.log2 u <= 63.
Proof.
  intros H. split.
  - apply Z.log2_le_pow2; lia.
  - assert (Z.log2 u < 64) by (apply Z.log2_lt_pow2; lia). lia.
Qed.

Lemma top_53_bits (u : Z) :
  2 ^ 53 <= u < 2 ^ 64 ->
  2 ^ 52 <= u / 2 ^ (Z.log2 u - 52) < 2 ^ 53.
Proof.
  intros H. pose proof (log2_range u H) as HL.
  pose proof (Z.log2_spec u ltac:(lia)) as [Hlo Hhi].
  set (n := Z.log2 u - 52) in *.
  assert (Hn : 0 < 2 ^ n) by (apply Z.pow_pos_nonneg; lia).
  replace (Z.log2 u) with (52 + n) in Hlo by lia.
  replace (Z.succ (Z.log2 u)) with (53 + n) in Hhi by lia.
  rewrite Z.pow_add_r in Hlo, Hhi by lia.
  split.
  - apply Z.div_le_lower_bound; lia.
  - apply Z.div_lt_upper_bound; lia.
Qed.

Lemma shl_align_large (p : positive) (d : Z) :
  0 < d -> shl_align p 0 d = (p, 0).
Proof.
  intros H. unfold shl_align. destruct (d - 0) as [|k|k] eqn:E; try reflexivity.
  lia.
Qed.

Lemma binary_normalize_large (p : positive) :
  2 ^ 53 <= Zpos p < 2 ^ 64 ->
  exists m e,
    binary_normalize prec emax (Zpos p) 0 false = S754_finite false m e /\
    2 ^ 52 <= Zpos m < 2 ^ 53 /\
    Z.log2 (Zpos p) - 52 <= e <= Z.log2 (Zpos p) - 51 /\
    (Zpos m * 2 ^ e = Zpos p / 2 ^ (Z.log2 (Zpos p) - 52) * 2 ^ (Z.log2 (Zpos p) - 52)
     \/ Zpos m * 2 ^ e
        = (Zpos p / 2 ^ (Z.log2 (Zpos p) - 52) + 1) * 2 ^ (Z.log2 (Zpos p) - 52)) /\
    (Zpos p mod 2 ^ (Z.log2 (Zpos p) - 52) = 0 -> Zpos m * 2 ^ e = Zpos p).
Proof.
  intros H. pose proof (log2_range _ H) as HL.
  pose proof (top_53_bits _ H) as Hq.
  set (n := Z.log2 (Zpos p) - 52) in *.
  set (q := Zpos p / 2 ^ n) in *.
  cbn [binary_normalize]. unfold binary_round.
  change (Zpos (digits2_pos p)) with (Zdigits2 (Zpos p)).
  rewrite Zdigits2_log2, fexp_normal by lia.
  rewrite shl_align_large by lia.
  unfold binary_round_aux.
  rewrite shr_fexp_eq by lia. fold n.
  replace (0 <? n) with true by (symmetry; apply Z.ltb_lt; lia).
  cbv iota. cbn [shr_record_of_loc].
  set (r1 := Nat.iter (Z.to_nat n) shr_1
               {| shr_m := Zpos p; shr_r := false; shr_s := false |}).
  assert (Hr1 : shr_m r1 = q).
  { unfold r1. rewrite iter_shr_1_m by (cbn [shr_m]; lia).
    cbn [shr_m]. rewrite Z2Nat.id by lia. reflexivity. }
  set (m1 := round_nearest_even (shr_m r1) (loc_of_shr_record r1)).
  assert (Hm1 : m1 = q \/ m1 = q + 1).
  { unfold m1. rewrite <- Hr1. apply round_cases. }
  assert (Hex : Zpos p mod 2 ^ n = 0 -> m1 = q).
  { intros Hmod. unfold m1, r1.
    assert (Ep : Zpos p = q * 2 ^ Z.of_nat (Z.to_nat n)).
    { rewrite Z2Nat.id by lia. unfold q.
      pose proof (Z.div_mod (Zpos p) (2 ^ n)) as Hd.
      assert (2 ^ n <> 0) by (apply Z.pow_nonzero; lia). lia. }
    rewrite Ep at 1 2. rewrite iter_shr_1_exact by lia. reflexivity. }
  destruct (round_tail m1 (0 + n)) as [m [e [Eq [Hm [He Hv]]]]];
    [lia | lia |].
  exists m, e. rewrite Eq. split; [reflexivity|].
  split; [exact Hm|]. split; [lia|].
  replace (0 + n) with n in Hv by lia.
  split.
  - destruct Hm1 as [E|E]; rewrite E in Hv; [left | right]; exact Hv.
  - intros Hmod. rewrite Hv, (Hex Hmod). unfold q.
    pose proof (Z.div_mod (Zpos p) (2 ^ n)) as Hd.
    assert (2 ^ n <> 0) by (apply Z.pow_nonzero; lia). lia.
Qed.

Lemma small_testbit (x k i : Z) :
  0 <= x < 2 ^ k -> k <= i -> Z.testbit x i = false.
Proof.
  intros Hx Hi. destruct (Z.eq_dec x 0) as [->|Hne].
  - apply Z.testbit_0_l.
  - apply Z.bits_above_log2; [lia|].
    assert (Z.log2 x < k) by (apply Z.log2_lt_pow2; lia). lia.
Qed.

Lemma lor_high_low (hi lo k : Z) :
  0 <= k -> 0 <= lo < 2 ^ k -> Z.lor (hi * 2 ^ k) lo = hi * 2 ^ k + lo.
Proof.
  intros Hk Hlo.
  assert (E : Z.land (hi * 2 ^ k) lo = 0).
  { apply Z.bits_inj'. intros i Hi. rewrite Z.land_spec, Z.bits_0.
    destruct (Z.lt_ge_cases i k) as [Hlt|Hge].
    - now rewrite Z.mul_pow2_bits_low.
    - rewrite (small_testbit lo k i) by lia. apply andb_false_r. }
  now rewrite (Z.add_nocarry_lxor _ _ E), (Z.lxor_lor _ _ E).
Qed.

Lemma SF_of_bits_finite (m : positive) (e : Z) :
  2 ^ 52 <= Zpos m < 2 ^ 53 -> -1074 <= e <= 971 ->
  SF_of_bits (bits_of_SF (S754_finite false m e)) = S754_finite false m e.
Proof.
  intros Hm He. unfold bits_of_SF.
  replace (Zpos m <? 2 ^ 52) with false by (symmetry; apply Z.ltb_ge; lia).
  cbn [sign_bit].
  set (E := e + 1075). set (M := Zpos m - 2 ^ 52).
  assert (HE : 1 <= E <= 2046) by (unfold E; lia).
  assert (HM : 0 <= M < 2 ^ 52) by (unfold M; lia).
  unfold SF_of_bits.
  assert (Hs : Z.testbit (0 + E * 2 ^ 52 + M) 63 = false).
  { apply (small_testbit _ 63); [|lia].
    change (2 ^ 63) with (2048 * 2 ^ 52). nia. }
  assert (Hexp : Z.land (Z.shiftr (0 + E * 2 ^ 52 + M) 52) 2047 = E).
  { rewrite Z.shiftr_div_pow2 by lia. rewrite Z.add_0_l, Z.div_add_l by lia.
    rewrite (Z.div_small M) by lia. rewrite Z.add_0_r.
    change 2047 with (Z.ones 11). rewrite Z.land_ones by lia.
    apply Z.mod_small. change (2 ^ 11) with 2048. lia. }
  assert (Hman : Z.land (0 + E * 2 ^ 52 + M) (2 ^ 52 - 1) = M).
  { change (2 ^ 52 - 1) with (Z.ones 52). rewrite Z.land_ones by lia.
    rewrite Z.add_0_l, Z.add_comm, Z.mod_add by lia. now apply Z.mod_small. }
  cbv zeta. rewrite Hs, Hexp, Hman.
  replace (E =? 0) with false by (symmetry; apply Z.eqb_neq; lia).
  replace (E =? 2047) with false by (symmetry; apply Z.eqb_neq; lia).
  replace (M + 2 ^ 52) with (Zpos m) by (unfold M; lia).
  f_equal. unfold E. lia.
Qed.

(** [(double) u] and back for an integer of 54 to 64 bits. *)
Lemma convert_large (u : Z) :
  2 ^ 53 <= u < 2 ^ 64 ->
  exists r,
    (r = u / 2 ^ (Z.log2 u - 52) * 2 ^ (Z.log2 u - 52) \/
     r = (u / 2 ^ (Z.log2 u - 52) + 1) * 2 ^ (Z.log2 u - 52)) /\
    (u mod 2 ^ (Z.log2 u - 52) = 0 -> r = u) /\
    nan_is_nan (mkNaNBox (double_of_u64 u)) = false /\
    (r < 2 ^ 64 -> u64_of_double (double_of_u64 u) = Done r).
Proof.
  intros H. destruct u as [|p|p]; try lia.
  pose proof (log2_range _ H) as HL.
  destruct (binary_normalize_large p H) as [m [e [Eq [Hm [He [Hv Hex]]]]]].
  exists (Zpos m * 2 ^ e). split; [exact Hv|]. split; [exact Hex|].
  unfold double_of_u64. rewrite Eq.
  assert (Hsf := SF_of_bits_finite m e Hm ltac:(lia)).
  split.
  - unfold nan_is_nan, double_ne. cbn [v]. rewrite Hsf.
    apply negb_false_iff. apply SFeqb_refl_iff. discriminate.
  - intros Hr. unfold u64_of_double. rewrite Hsf.
    rewrite Z.shiftl_mul_pow2 by lia.
    now replace (Zpos m * 2 ^ e <? 2 ^ 64) with true
      by (symmetry; apply Z.ltb_lt; exact Hr).
Qed.

End Conversions.

(** ** Tagged values: the constructors on every input *)

Section BoxPatterns.

Lemma EXP_MASK_value : EXP_MASK = 2047 * 2 ^ 52.
Proof. reflexivity. Qed.

Lemma Type_to_Z_range (ty : Type_) : 0 <= Type_to_Z ty < 16.
Proof. destruct ty; simpl; lia. Qed.

(** The integer pattern of a box: exponent mask, type field, payload. *)
Lemma pattern_range (T a : Z) :
  0 <= T < 16 -> 0 <= a < 2 ^ 47 ->
  2 ^ 62 <= EXP_MASK + T * 2 ^ 48 + a < 2 ^ 63.
Proof.
  intros HT Ha. rewrite EXP_MASK_value.
  change (2 ^ 62) with (1024 * 2 ^ 52). change (2 ^ 63) with (2048 * 2 ^ 52).
  change (2 ^ 52) with (16 * 2 ^ 48). change (2 ^ 48) with (2 * 2 ^ 47) at 3.
  lia.
Qed.

Lemma convert_pattern (T a : Z) :
  0 <= T < 16 -> 0 <= a < 2 ^ 47 ->
  exists a1,
    (a1 = a / 1024 * 1024 \/ a1 = a / 1024 * 1024 + 1024) /\
    (a mod 1024 = 0 -> a1 = a) /\
    nan_is_nan (mkNaNBox (double_of_u64 (EXP_MASK + T * 2 ^ 48 + a))) = false /\
    u64_of_double (double_of_u64 (EXP_MASK + T * 2 ^ 48 + a))
    = Done (EXP_MASK + T * 2 ^ 48 + a1).
Proof.
  intros HT Ha. pose proof (pattern_range T a HT Ha) as Hu.
  set (u := EXP_MASK + T * 2 ^ 48 + a) in *.
  assert (HL : Z.log2 u = 62) by (apply Z.log2_unique; lia).
  destruct (convert_large u ltac:(lia)) as [r [Hr [Hex [Hnan Hconv]]]].
  rewrite HL in Hr, Hex. change (62 - 52) with 10 in Hr, Hex.
  change (2 ^ 10) with 1024 in Hr, Hex.
  set (c := 2047 * 2 ^ 42 + T * 2 ^ 38).
  assert (Eu : u = c * 1024 + a).
  { unfold u, c. rewrite EXP_MASK_value.
    change (2 ^ 52) with (2 ^ 42 * 1024). change (2 ^ 48) with (2 ^ 38 * 1024).
    lia. }
  assert (Ediv : u / 1024 = c + a / 1024)
    by (rewrite Eu; apply Z.div_add_l; lia).
  assert (Emod : u mod 1024 = a mod 1024)
    by (rewrite Eu, Z.add_comm; apply Z.mod_add; lia).
  rewrite Ediv in Hr. rewrite Emod in Hex.
  pose proof (Z.div_mod a 1024 ltac:(lia)) as Hd.
  pose proof (Z.mod_pos_bound a 1024 ltac:(lia)) as Hb.
  exists (r - c * 1024).
  split; [lia|]. split; [intros Hm; specialize (Hex Hm); lia|].
  split; [exact Hnan|].
  rewrite Hconv by lia. f_equal. unfold u in Eu. lia.
Qed.

Lemma to_int_range (x : Z) : - 2 ^ 31 <= to_int x < 2 ^ 31.
Proof.
  unfold to_int, to_signed. change (32 - 1) with 31.
  pose proof (Z.mod_pos_bound x (2 ^ 32) ltac:(lia)) as H.
  destruct (Z.ltb_spec (x mod 2 ^ 32) (2 ^ 31)); lia.
Qed.

Lemma payload_bits (a : Z) :
  0 <= a < 2 ^ 48 -> Z.land (to_u64 a) VALUE_MASK = a.
Proof.
  intros Ha. unfold to_u64, to_unsigned. rewrite (Z.mod_small a) by lia.
  rewrite VALUE_MASK_ones, Z.land_ones by lia. apply Z.mod_small. lia.
Qed.

Lemma lor_exp_payload (a : Z) :
  0 <= a < 2 ^ 48 -> Z.lor EXP_MASK a = EXP_MASK + a.
Proof.
  intros Ha. rewrite EXP_MASK_value.
  change (2047 * 2 ^ 52) with (2047 * 16 * 2 ^ 48).
  apply lor_high_low; lia.
Qed.

Lemma clear_type_field (a : Z) :
  0 <= a < 2 ^ 48 ->
  Z.land (EXP_MASK + a) (not64 TYPE_MASK) = EXP_MASK + a.
Proof.
  intros Ha. rewrite <- (lor_exp_payload a Ha) at 1.
  rewrite Z.land_lor_distr_l.
  change (Z.land EXP_MASK (not64 TYPE_MASK)) with EXP_MASK.
  assert (E : Z.land a (not64 TYPE_MASK) = a).
  { replace a with (Z.land a (Z.ones 48)) at 1
      by (rewrite Z.land_ones by lia; apply Z.mod_small; lia).
    rewrite <- Z.land_assoc.
    change (Z.land (Z.ones 48) (not64 TYPE_MASK)) with (Z.ones 48).
    rewrite Z.land_ones by lia. apply Z.mod_small. lia. }
  rewrite E. now apply lor_exp_payload.
Qed.

Lemma put_type_field (ty : Type_) (a : Z) :
  0 <= a < 2 ^ 48 ->
  Z.lor (EXP_MASK + a) (Z.shiftl (Z.land (to_u64 (Type_to_Z ty)) 15) 48)
  = EXP_MASK + Type_to_Z ty * 2 ^ 48 + a.
Proof.
  intros Ha. pose proof (Type_to_Z_range ty) as HT.
  replace (Z.shiftl (Z.land (to_u64 (Type_to_Z ty)) 15) 48)
    with (Type_to_Z ty * 2 ^ 48) by (destruct ty; reflexivity).
  rewrite <- (lor_exp_payload a Ha).
  rewrite <- Z.lor_assoc, (Z.lor_comm a), Z.lor_assoc.
  rewrite EXP_MASK_value.
  rewrite (lor_high_low 2047 (Type_to_Z ty * 2 ^ 48) 52)
    by (change (2 ^ 52) with (16 * 2 ^ 48); lia).
  replace (2047 * 2 ^ 52 + Type_to_Z ty * 2 ^ 48)
    with ((2047 * 16 + Type_to_Z ty) * 2 ^ 48)
    by (change (2 ^ 52) with (16 * 2 ^ 48); lia).
  apply lor_high_low; lia.
Qed.

(** Reading the fields of a pattern. *)
Lemma read_type_field (T a : Z) :
  0 <= T < 16 -> 0 <= a < 2 ^ 48 ->
  Z.shiftr (Z.land (EXP_MASK + T * 2 ^ 48 + a) TYPE_MASK) 48 = T.
Proof.
  intros HT Ha. rewrite Z.shiftr_land.
  change (Z.shiftr TYPE_MASK 48) with (Z.ones 4).
  rewrite Z.land_ones, Z.shiftr_div_pow2 by lia.
  rewrite EXP_MASK_value.
  replace (2047 * 2 ^ 52 + T * 2 ^ 48 + a)
    with ((2047 * 16 + T) * 2 ^ 48 + a)
    by (change (2 ^ 52) with (16 * 2 ^ 48); lia).
  rewrite Z.div_add_l, (Z.div_small a) by lia.
  rewrite Z.add_0_r, Z.add_comm, Z.mod_add by lia.
  apply Z.mod_small. change (2 ^ 4) with 16. lia.
Qed.

Lemma read_payload_field (T a : Z) :
  0 <= a < 2 ^ 48 ->
  Z.land (EXP_MASK + T * 2 ^ 48 + a) VALUE_MASK = a.
Proof.
  intros Ha. rewrite VALUE_MASK_ones, Z.land_ones by lia.
  rewrite EXP_MASK_value.
  replace (2047 * 2 ^ 52 + T * 2 ^ 48 + a)
    with (a + (2047 * 16 + T) * 2 ^ 48)
    by (change (2 ^ 52) with (16 * 2 ^ 48); lia).
  rewrite Z.mod_add by lia. apply Z.mod_small. lia.
Qed.

Lemma read_sign_clear (x : Z) :
  0 <= x < 2 ^ 63 -> Z.land x (to_u64 (Z.shiftl 1 63)) = 0.
Proof.
  intros Hx. change (to_u64 (Z.shiftl 1 63)) with (2 ^ 63).
  apply Z.bits_inj'. intros i Hi.
  rewrite Z.land_spec, Z.bits_0, Z.pow2_bits_eqb by lia.
  destruct (Z.eqb_spec 63 i) as [<-|Hne].
  - rewrite (small_testbit x 63 63) by lia. reflexivity.
  - apply andb_false_r.
Qed.

Lemma box_int_min (v : Z) (ty : Type_) :
  to_int v = - 2 ^ 31 ->
  (x <- nan_set_value nan_make_inf v ;;
   d <- nan_set_type x ty ;; Done (mkNaNBox d)) = Stuck AbsOverflow.
Proof.
  intros H. unfold nan_set_value.
  rewrite u64_of_double_nan_make_inf, H. reflexivity.
Qed.

Lemma box_zero (ty : Type_) :
  exists box,
    (x <- nan_set_value nan_make_inf 0 ;;
     d <- nan_set_type x ty ;; Done (mkNaNBox d)) = Done box /\
    nan_is_nan box = false /\
    nan_get_type box = Done (Type_to_Z ty) /\
    nan_get_value box = Done 0.
Proof.
  destruct ty; eexists; (split; [reflexivity|]); repeat split; reflexivity.
Qed.

Lemma set_value_nonzero (v : Z) :
  v <> 0 -> to_int v <> - 2 ^ 31 ->
  nan_set_value nan_make_inf v
  = Done (double_of_u64 (EXP_MASK + Z.abs (to_int v))).
Proof.
  intros Hv Hi. pose proof (to_int_range v) as Hr.
  unfold nan_set_value, c_abs.
  replace (v =? 0) with false by (symmetry; apply Z.eqb_neq; exact Hv).
  replace (to_int v =? - 2 ^ 31) with false
    by (symmetry; apply Z.eqb_neq; exact Hi).
  rewrite u64_of_double_nan_make_inf. cbn [bind].
  change (Z.land EXP_MASK (not64 VALUE_MASK)) with EXP_MASK.
  rewrite payload_bits, Z.lor_0_r, lor_exp_payload by lia.
  reflexivity.
Qed.

Lemma box_nonzero (v : Z) (ty : Type_) :
  v <> 0 -> to_int v <> - 2 ^ 31 ->
  exists g,
    (g = Z.abs (to_int v) / 1024 * 1024 \/
     g = Z.abs (to_int v) / 1024 * 1024 + 1024) /\
    (Z.abs (to_int v) mod 1024 = 0 -> g = Z.abs (to_int v)) /\
    (x <- nan_set_value nan_make_inf v ;;
     d <- nan_set_type x ty ;; Done (mkNaNBox d))
    = Done (mkNaNBox (double_of_u64 (EXP_MASK + Type_to_Z ty * 2 ^ 48 + g))) /\
    nan_is_nan (mkNaNBox (double_of_u64 (EXP_MASK + Type_to_Z ty * 2 ^ 48 + g)))
    = false /\
    u64_of_double (double_of_u64 (EXP_MASK + Type_to_Z ty * 2 ^ 48 + g))
    = Done (EXP_MASK + Type_to_Z ty * 2 ^ 48 + g).
Proof.
  intros Hv Hi. pose proof (to_int_range v) as Hr.
  pose proof (Type_to_Z_range ty) as HT.
  set (a := Z.abs (to_int v)) in *.
  assert (Ha : 0 <= a < 2 ^ 31) by (unfold a; lia).
  destruct (convert_pattern 0 a ltac:(lia) ltac:(lia))
    as [g [Hg [Hex [_ Hc1]]]].
  pose proof (Z.div_mod a 1024 ltac:(lia)) as Hd.
  pose proof (Z.mod_pos_bound a 1024 ltac:(lia)) as Hb.
  assert (Hg47 : 0 <= g < 2 ^ 47) by lia.
  assert (Hgm : g mod 1024 = 0).
  { destruct Hg as [-> | ->].
    - apply Z.mod_mul. lia.
    - replace (a / 1024 * 1024 + 1024) with ((a / 1024 + 1) * 1024) by lia.
      apply Z.mod_mul. lia. }
  destruct (convert_pattern (Type_to_Z ty) g HT Hg47)
    as [g' [_ [Hex' [Hnan Hc2]]]].
  rewrite (Hex' Hgm) in Hc2.
  exists g. split; [exact Hg|]. split; [exact Hex|].
  split; [|split; [exact Hnan | exact Hc2]].
  rewrite (set_value_nonzero v Hv Hi). cbn [bind]. fold a.
  unfold nan_set_type.
  replace (EXP_MASK + a) with (EXP_MASK + 0 * 2 ^ 48 + a) by lia.
  rewrite Hc1. cbn [bind].
  replace (EXP_MASK + 0 * 2 ^ 48 + g) with (EXP_MASK + g) by lia.
  rewrite clear_type_field, put_type_field by lia.
  reflexivity.
Qed.

Lemma read_pattern (box : NaNBox) (T g : Z) :
  0 <= T < 16 -> 0 <= g < 2 ^ 47 ->
  nan_is_nan box = false ->
  u64_of_double (v box) = Done (EXP_MASK + T * 2 ^ 48 + g) ->
  nan_get_type box = Done T /\ nan_get_value box = Done g.
Proof.
  intros HT Hg Hnan Hu. pose proof (pattern_range T g HT Hg) as Hp.
  unfold nan_get_type, nan_get_value. rewrite Hnan, Hu. cbn [bind].
  rewrite read_type_field, read_payload_field, read_sign_clear by lia.
  cbn [Z.eqb negb]. rewrite to_i64_small by lia. split; reflexivity.
Qed.

(** What every constructor comes down to. *)
Lemma box_reads (v : Z) (ty : Type_) :
  to_int v <> - 2 ^ 31 ->
  exists box g,
    (x <- nan_set_value nan_make_inf v ;;
     d <- nan_set_type x ty ;; Done (mkNaNBox d)) = Done box /\
    nan_is_nan box = false /\
    nan_get_type box = Done (Type_to_Z ty) /\
    nan_get_value box = Done g /\
    (g = Z.abs (to_int v) / 1024 * 1024 \/
     g = Z.abs (to_int v) / 1024 * 1024 + 1024) /\
    (Z.abs (to_int v) mod 1024 = 0 -> g = Z.abs (to_int v)).
Proof.
  intros Hi. destruct (Z.eq_dec v 0) as [->|Hv].
  - destruct (box_zero ty) as [box [E [Hn [Ht Hg]]]].
    exists box, 0. repeat split; try assumption.
    now left.
  - pose proof (to_int_range v) as Hr.
    destruct (box_nonzero v ty Hv Hi) as [g [Hg [Hex [E [Hn Hu]]]]].
    pose proof (Z.div_mod (Z.abs (to_int v)) 1024 ltac:(lia)) as Hd.
    pose proof (Z.mod_pos_bound (Z.abs (to_int v)) 1024 ltac:(lia)) as Hb.
    destruct (read_pattern _ (Type_to_Z ty) g (Type_to_Z_range ty)
                ltac:(lia) Hn Hu) as [Ht Hv'].
    eexists. exists g. split; [exact E|]. repeat split; assumption.
Qed.

Lemma to_int_min_iff (f : Z) : to_int f = - 2 ^ 31 <-> f mod 2 ^ 32 = 2 ^ 31.
Proof.
  unfold to_int, to_signed. change (32 - 1) with 31.
  pose proof (Z.mod_pos_bound f (2 ^ 32) ltac:(lia)) as H.
  destruct (Z.ltb_spec (f mod 2 ^ 32) (2 ^ 31)); lia.
Qed.

Lemma to_int_small (i : Z) : 0 <= i < 2 ^ 31 -> to_int i = i.
Proof.
  intros H. unfold to_int, to_signed. change (32 - 1) with 31.
  rewrite Z.mod_small by lia.
  now replace (i <? 2 ^ 31) with true by (symmetry; apply Z.ltb_lt; lia).
Qed.

Lemma to_u8_range (f : Z) : 0 <= to_u8 f < 256.
Proof. unfold to_u8, to_unsigned. apply Z.mod_pos_bound. reflexivity. Qed.

Lemma to_int_u8 (f : Z) : to_int (to_i64 (to_u8 f)) <> - 2 ^ 31.
Proof.
  pose proof (to_u8_range f) as H.
  rewrite to_i64_small by lia. rewrite to_int_small by lia. lia.
Qed.


End BoxPatterns.

(** X25. No constructor makes a NaN: whatever [nan_from_i64],
    [nan_from_u64], [nan_from_u8] or [nan_from_str] returns is an
    ordinary double, on which [nan_is_f64] answers true. *)
Theorem constructors_never_make_nan (f : Z) (str : char_ptr) (box : NaNBox) :
  nan_from_i64 f = Done box \/ nan_from_u64 f = Done box \/
  nan_from_u8 f = Done box \/ nan_from_str str = Done box ->
  nan_is_nan box = false /\ nan_is_f64 box = true.
Proof.
  assert (Hchain : forall v ty,
             (x <- nan_set_value nan_make_inf v ;;
              d <- nan_set_type x ty ;; Done (mkNaNBox d)) = Done box ->
             nan_is_nan box = false).
  { intros v ty E.
    destruct (Z.eq_dec (to_int v) (- 2 ^ 31)) as [Hm|Hm].
    - rewrite (box_int_min v ty Hm) in E. discriminate E.
    - destruct (box_reads v ty Hm) as [b [g [E' [Hn _]]]].
      rewrite E in E'. injection E' as <-. exact Hn. }
  intros H.
  assert (Hn : nan_is_nan box = false).
  { destruct H as [H|[H|[H|H]]].
    - exact (Hchain _ _ H).
    - exact (Hchain _ _ H).
    - exact (Hchain _ _ H).
    - destruct str as [s|]; [|discriminate H].
      exact (Hchain _ _ H). }
  split; [exact Hn|]. unfold nan_is_f64. now rewrite Hn.
Qed.

Lemma constructors_never_make_nan_witness :
  nan_is_nan (mkNaNBox 4890904797277847552) = false /\
  nan_is_f64 (mkNaNBox 4890904797277847552) = true.
Proof.
  exact (constructors_never_make_nan 7 Expired (mkNaNBox 4890904797277847552)
           (or_introl eq_refl)).
Defined.

(** X26. [nan_from_i64] and [nan_from_u64] return a box for every
    argument whose low 32 bits are not 0x80000000, and [nan_get_type]
    reads from it the tag the constructor put in. *)
Theorem boxing_defined_and_tagged (f : Z) :
  f mod 2 ^ 32 <> 2 ^ 31 ->
  (exists box, nan_from_i64 f = Done box /\
               nan_get_type box = Done (Type_to_Z TYPE_I64)) /\
  (exists box, nan_from_u64 f = Done box /\
               nan_get_type box = Done (Type_to_Z TYPE_U64)).
Proof.
  intros H.
  assert (Hi : to_int (to_i64 (to_u64 f)) <> - 2 ^ 31).
  { rewrite to_int_low_32. intros E. apply H. now apply to_int_min_iff. }
  split.
  - destruct (box_reads _ TYPE_I64 Hi) as [box [g [E [_ [Ht _]]]]].
    exists box. split; assumption.
  - destruct (box_reads _ TYPE_U64 Hi) as [box [g [E [_ [Ht _]]]]].
    exists box. split; assumption.
Qed.

Lemma boxing_defined_and_tagged_witness :
  (exists box, nan_from_i64 (-5) = Done box /\
               nan_get_type box = Done (Type_to_Z TYPE_I64)) /\
  (exists box, nan_from_u64 (-5) = Done box /\
               nan_get_type box = Done (Type_to_Z TYPE_U64)).
Proof.
  assert (H : (-5) mod 2 ^ 32 <> 2 ^ 31) by (intros E; discriminate E).
  exact (boxing_defined_and_tagged (-5) H).
Defined.

(** X27. A positive multiple of 1024 below 2^31 comes back unchanged:
    [nan_as_i64 (nan_from_i64 i)] and [nan_as_u64 (nan_from_u64 i)]
    are [i]. *)
Theorem multiples_of_1024_round_trip (i : Z) :
  0 < i < 2 ^ 31 -> i mod 1024 = 0 ->
  (exists box, nan_from_i64 i = Done box /\ nan_as_i64 box = Done i) /\
  (exists box, nan_from_u64 i = Done box /\ nan_as_u64 box = Done i).
Proof.
  intros Hi Hm.
  assert (Ev : to_i64 (to_u64 i) = i).
  { unfold to_u64, to_unsigned. rewrite Z.mod_small by lia.
    apply to_i64_small. lia. }
  assert (Ea : Z.abs (to_int i) = i) by (rewrite to_int_small by lia; lia).
  assert (Hmin : to_int i <> - 2 ^ 31) by (rewrite to_int_small by lia; lia).
  split.
  - destruct (box_reads i TYPE_I64 Hmin) as [box [g [E [_ [_ [Hg [_ Hex]]]]]]].
    rewrite Ea in Hex. rewrite (Hex Hm) in Hg.
    exists box. unfold nan_from_i64, nan_as_i64. rewrite Ev. split; assumption.
  - destruct (box_reads i TYPE_U64 Hmin) as [box [g [E [_ [_ [Hg [_ Hex]]]]]]].
    rewrite Ea in Hex. rewrite (Hex Hm) in Hg.
    exists box. unfold nan_from_u64, nan_as_u64. rewrite Ev, Hg.
    split; [exact E|]. cbn [bind]. f_equal.
    unfold to_u64, to_unsigned. apply Z.mod_small. lia.
Qed.

Lemma multiples_of_1024_round_trip_witness :
  (exists box, nan_from_i64 3072 = Done box /\ nan_as_i64 box = Done 3072) /\
  (exists box, nan_from_u64 3072 = Done box /\ nan_as_u64 box = Done 3072).
Proof.
  assert (H : 0 < 3072 < 2 ^ 31) by lia.
  exact (multiples_of_1024_round_trip 3072 H eq_refl).
Defined.

(** X28. For every argument whose low 32 bits are not 0x80000000,
    [nan_as_i64 (nan_from_i64 f)] is a non-negative multiple of 1024
    less than 1024 away from the magnitude of [(int) f]: the sign and
    the bits above the low 32 are lost, the rest is rounded. *)
Theorem boxed_value_reads_back_rounded (f : Z) :
  f mod 2 ^ 32 <> 2 ^ 31 ->
  exists box g,
    nan_from_i64 f = Done box /\ nan_as_i64 box = Done g /\
    0 <= g /\ g mod 1024 = 0 /\ Z.abs (g - Z.abs (to_int f)) < 1024.
Proof.
  intros H.
  assert (Hi : to_int (to_i64 (to_u64 f)) <> - 2 ^ 31).
  { rewrite to_int_low_32. intros E. apply H. now apply to_int_min_iff. }
  destruct (box_reads _ TYPE_I64 Hi) as [box [g [E [_ [_ [Hg [Hc Hex]]]]]]].
  rewrite to_int_low_32 in Hc, Hex.
  pose proof (to_int_range f) as Hr.
  set (a := Z.abs (to_int f)) in *.
  pose proof (Z.div_mod a 1024 ltac:(lia)) as Hd.
  pose proof (Z.mod_pos_bound a 1024 ltac:(lia)) as Hb.
  exists box, g. split; [exact E|]. split; [exact Hg|].
  assert (Hgm : g mod 1024 = 0).
  { destruct Hc as [-> | ->].
    - apply Z.mod_mul. lia.
    - replace (a / 1024 * 1024 + 1024) with ((a / 1024 + 1) * 1024) by lia.
      apply Z.mod_mul. lia. }
  split; [|split; [exact Hgm|]].
  - assert (0 <= a / 1024) by (apply Z.div_pos; lia). lia.
  - destruct (Z.eq_dec (a mod 1024) 0) as [E0|N0].
    + rewrite (Hex E0). rewrite Z.sub_diag. simpl. lia.
    + lia.
Qed.

Lemma boxed_value_reads_back_rounded_witness :
  exists box g,
    nan_from_i64 (-3000) = Done box /\ nan_as_i64 box = Done g /\
    0 <= g /\ g mod 1024 = 0 /\ Z.abs (g - Z.abs (to_int (-3000))) < 1024.
Proof.
  assert (H : (-3000) mod 2 ^ 32 <> 2 ^ 31) by (intros E; discriminate E).
  exact (boxed_value_reads_back_rounded (-3000) H).
Defined.

(** ** Two more facts on NaN patterns and on the codec round trip *)

Section NanPattern.

Lemma SF_of_bits_nan_iff (f : double) :
  SF_of_bits f = S754_nan <->
  Z.land (Z.shiftr f 52) 2047 = 2047 /\ Z.land f (2 ^ 52 - 1) <> 0.
Proof.
  unfold SF_of_bits. cbv zeta.
  assert (Hm : 0 <= Z.land f (2 ^ 52 - 1)) by (apply Z.land_nonneg; right; lia).
  destruct (Z.eqb_spec (Z.land (Z.shiftr f 52) 2047) 0) as [E0|N0].
  - rewrite E0.
    destruct (Z.land f (2 ^ 52 - 1)); (split; [discriminate | intros [H _]; discriminate H]).
  - destruct (Z.eqb_spec (Z.land (Z.shiftr f 52) 2047) 2047) as [E1|N1].
    + destruct (Z.eqb_spec (Z.land f (2 ^ 52 - 1)) 0) as [Em|Nm].
      * split; [discriminate | intros [_ H]; now contradiction H].
      * split; [intros _; split; assumption | reflexivity].
    + destruct (Z.land f (2 ^ 52 - 1) + 2 ^ 52) as [|p|p] eqn:Ep; try lia.
      split; [discriminate | intros [H _]; now contradiction N1].
Qed.

End NanPattern.

(** X29. [nan_is_nan] on a box made by [nan_from_f64] is true exactly
    when the exponent field of the double is all ones and its fraction
    is not zero; [nan_is_f64] is its negation. *)
Theorem nan_is_nan_pattern_iff (f : double) :
  nan_is_nan (nan_from_f64 f) = true <->
  Z.land (Z.shiftr f 52) 2047 = 2047 /\ Z.land f (2 ^ 52 - 1) <> 0.
Proof.
  rewrite <- SF_of_bits_nan_iff. split.
  - apply nan_is_nan_pattern.
  - intros H. unfold nan_is_nan, double_ne, nan_from_f64. cbn [v].
    now rewrite H.
Qed.

(** X30. Encoding an instruction with a boxed, Int64, UInt64 or Float
    operand in the 14-byte array and decoding the array: the payload
    copy of the decoder, 10 bytes, stays inside the array but writes
    past the 8-byte object it copies into, for every opcode, operand
    and array content. The behaviour of the call is undefined from
    there. *)
Theorem decode_encoded_payload_overflows
  (ty : Inst_Type) (x : Inst_Value) (out : Inst) (st : state) :
  inst_value_ty x <> INST_V_TYPE_NONE ->
  inst_value_ty x <> INST_V_TYPE_STR ->
  List.length (ret st) = INST_STR_CAP ->
  decode_encoded (inst_new ty x) out st = Stuck ObjectOverflow.
Proof.
  intros Hn Hs Hlen. unfold INST_STR_CAP in Hlen.
  pose proof (encode_fixed_done x st Hs ltac:(lia)) as He.
  unfold decode_encoded.
  rewrite (inst_to_bytes_done ty x st _ He). cbn [bind deref ret set_ret].
  assert (Hl : List.length
                 (overwrite (ret st) 0 (inst_type_to_bytes ty :: encoding x))
               = 14%nat).
  { rewrite overwrite_length; [exact Hlen|].
    destruct x as [nan| |i64|u64|f64|str]; unfold encoding;
      cbn [List.length]; rewrite ?le_bytes_length; try lia;
      now contradiction Hs. }
  revert Hl.
  destruct (ret st) as [|a0 [|a1 a]]; try (simpl in Hlen; lia).
  unfold encoding. rewrite !overwrite_0.
  intros Hl. cbn [List.length] in Hl. unfold inst_from_bytes.
  rewrite decode_payload_stuck.
  - now replace (List.length _ <? 10)%nat with false
      by (symmetry; apply Nat.ltb_ge; lia).
  - destruct x as [nan| |i64|u64|f64|str]; cbn [inst_value_ty];
      try (now contradiction Hn); try (now contradiction Hs);
      cbv; tauto.
Qed.

Lemma decode_encoded_payload_overflows_witness :
  decode_encoded (inst_new Op.push (inst_value_new_u64 42))
                 (inst_new Op.halt inst_value_new_void) initial_state
  = Stuck ObjectOverflow.
Proof.
  assert (Hn : inst_value_ty (inst_value_new_u64 42) <> INST_V_TYPE_NONE)
    by discriminate.
  assert (Hs : inst_value_ty (inst_value_new_u64 42) <> INST_V_TYPE_STR)
    by discriminate.
  exact (decode_encoded_payload_overflows Op.push (inst_value_new_u64 42)
           (inst_new Op.halt inst_value_new_void) initial_state Hn Hs eq_refl).
Defined.
